(** * stylelint-value-no-unknown-custom-properties

    A shallow embedding of [src/index.js]: the custom-property resolver
    ([getCustomPropertiesFromRoot], the property-file loaders,
    [getCustomPropertiesFromSources]), the value-reference validator
    ([validateValueAST], [isVarFunction]) and the rule entry point
    (the callback handed to [createPlugin]), with the properties of the
    specification stated and proved over them. *)

From Stdlib Require Import Ascii String.
From stdpp Require Import gmap strings list fin_maps.

Set Default Proof Using "Type".
Set Warnings "-register-all".

(** ** JavaScript values and completions *)

(** The exceptions the modelled code can meet. *)
Inductive exn : Type :=
  | TypeError                 (* reading a property of [undefined] *)
  | IOError (path : string)   (* a file that cannot be read *)
  | SyntaxError               (* text that does not parse *)
  | ResolveError (id : string) (* a specifier [resolve] cannot find *)
  | Rejected (reason : string) (* any other rejection of a promise *).

(** A JavaScript completion: the value of an expression (or the value a
    promise is fulfilled with), or the exception thrown (the reason the
    promise is rejected with). *)
Inductive completion (A : Type) : Type :=
  | Normal (a : A)
  | Throw (e : exn).
Arguments Normal {A} a.
Arguments Throw {A} e.

#[global] Instance exn_eq_dec : EqDecision exn.
Proof. solve_decision. Defined.

(** A custom-property mapping: the plain object used as a dictionary from
    custom-property names to raw values, as the map of its own keys. *)
Abbreviation mapping := (gmap string string).

(** [Object.assign(target, source)]: every key of [source] is written over
    [target].  A source that is [undefined] is skipped. *)
Definition Object_assign (target : mapping) (source : option mapping) : mapping :=
  match source with
  | Some s => s ∪ target
  | None => target
  end.

(** [String(v)] for a value that is a string or [undefined]. *)
Definition js_String (v : option string) : string :=
  match v with
  | Some s => s
  | None => "undefined"
  end.

(** [key in object], on the own keys of [object].  (The operator also sees
    the keys an object inherits from [Object.prototype]; the keys looked up
    are the words the value parser marks as variables, which begin with
    two dashes, and no inherited key does.) *)
Definition js_in (key : option string) (object : mapping) : bool :=
  bool_decide (is_Some (object !! js_String key)).

(** ** The value syntax tree (postcss-values-parser) *)

(** A node of the tree the value parser returns, with the properties the
    rule reads: [type], [name] (functions), [value] and [isVariable]
    (words), [nodes] (containers; [None] is [undefined]). *)
Inductive Node : Type := mkNode {
  type : string;
  name : option string;
  value : option string;
  isVariable : bool;
  nodes : option (list Node)
}.

(** ** The stylesheet tree (postcss) *)

Module postcss.

(** A child of a stylesheet root, a rule or an at-rule. *)
Inductive ChildNode : Type :=
  | Decl (prop value : string)
  | AtRule (name params : string) (nodes : list ChildNode)
  | Rule (selector : string) (nodes : list ChildNode)
  | Comment (text : string).

(** A declaration as a visitor of [walkDecls] sees it. *)
Record Declaration : Type := mkDecl { prop : string; value : string }.

(** An at-rule as a visitor of [walkAtRules] sees it. *)
Record AtRuleNode : Type := mkAtRule { name : string; params : string }.

(** A parsed stylesheet: [file] is [root.source.input.file]. *)
Record Root : Type := mkRoot { file : option string; nodes : list ChildNode }.

#[global] Instance Declaration_eq_dec : EqDecision Declaration.
Proof. solve_decision. Defined.

End postcss.

(** ** Diagnostics *)

(** The object handed to [stylelint.utils.report] (its [result] field is
    the state the report is recorded in). *)
Record Report : Type := mkReport {
  message : string;
  node : postcss.Declaration;
  ruleName_of : string;
  word : string
}.

#[global] Instance Report_eq_dec : EqDecision Report.
Proof. solve_decision. Defined.

(** Effects of the validator: reports accumulate in [result]; an exception
    leaves the reports made before it. *)
Definition M (A : Type) : Type := list Report → completion A * list Report.

Definition ret {A} (a : A) : M A := λ result, (Normal a, result).

Definition throw {A} (e : exn) : M A := λ result, (Throw e, result).

Definition bind {A B} (c : M A) (k : A → M B) : M B := λ result,
  match c result with
  | (Normal a, result') => k a result'
  | (Throw e, result') => (Throw e, result')
  end.

Notation "c1 ;; c2" := (bind c1 (λ _, c2)) (at level 100, right associativity).

(** [stylelint.utils.report(r)]. *)
Definition report (r : Report) : M unit := λ result, (Normal tt, result ++ [r]).

(** [array.forEach(callback)]. *)
Fixpoint forEach {A} (callback : A → M unit) (array : list A) : M unit :=
  match array with
  | [] => ret tt
  | x :: rest => callback x ;; forEach callback rest
  end.

(** [array.filter(predicate)] for a predicate that can throw. *)
Fixpoint js_filter {A} (predicate : A → completion bool) (array : list A)
    : completion (list A) :=
  match array with
  | [] => Normal []
  | x :: rest =>
      match predicate x with
      | Throw e => Throw e
      | Normal b =>
          match js_filter predicate rest with
          | Throw e => Throw e
          | Normal kept => Normal (if b then x :: kept else kept)
          end
      end
  end.

(** ** Strings and regular expressions *)

(** The code of a character. *)
Definition code (c : ascii) : nat := nat_of_ascii c.

(** A character between [lo] and [hi], ends included: a class range
    [lo-hi] of a regular expression. *)
Definition in_range (lo hi c : ascii) : bool :=
  (code lo <=? code c)%nat && (code c <=? code hi)%nat.

(** The class [\w]: [A-Za-z0-9_]. *)
Definition word_char (c : ascii) : bool :=
  in_range "A" "Z" c || in_range "a" "z" c || in_range "0" "9" c
  || bool_decide (c = "_"%char).

(** The class [[\w-]]. *)
Definition word_or_hyphen (c : ascii) : bool :=
  word_char c || bool_decide (c = "-"%char).

(** Whether every character of a string passes a test. *)
Fixpoint all_chars (test : ascii → bool) (s : string) : bool :=
  match s with
  | EmptyString => true
  | String c s' => test c && all_chars test s'
  end.

(** Whether some character of a string is [c]. *)
Fixpoint contains_char (c : ascii) (s : string) : bool :=
  match s with
  | EmptyString => false
  | String c' s' => bool_decide (c' = c) || contains_char c s'
  end.

(** [customPropertyRegExp.test(prop)] for [/^--[A-z][\w-]*$/]: two
    dashes, one character of the range [A-z], then characters of
    [[\w-]] to the end. *)
Definition customPropertyRegExp_test (prop : string) : bool :=
  match prop with
  | String "-" (String "-" (String c rest)) =>
      in_range "A" "z" c && all_chars word_or_hyphen rest
  | _ => false
  end.

(** The part [var\([\W\w]+\)] of [customPropertyReferenceRegExp], matched
    at the start of [s]: [var(], at least one character, and a closing
    parenthesis somewhere after it. *)
Definition var_call_here (s : string) : bool :=
  match s with
  | String "v" (String "a" (String "r" (String "(" (String _ rest)))) =>
      contains_char ")" rest
  | _ => false
  end.

(** The search of [/(^|[^\w-])var\([\W\w]+\)/] through [s]; [previous] is
    the character before [s] in the whole text, [None] at its start. *)
Fixpoint customPropertyReferenceRegExp_search (previous : option ascii)
    (s : string) : bool :=
  (match previous with
   | None => true
   | Some c => negb (word_or_hyphen c)
   end && var_call_here s)
  || match s with
     | EmptyString => false
     | String c s' => customPropertyReferenceRegExp_search (Some c) s'
     end.

(** [customPropertyReferenceRegExp.test(text)]. *)
Definition customPropertyReferenceRegExp_test (text : string) : bool :=
  customPropertyReferenceRegExp_search None text.

(** [hasCustomPropertyReference(decl)]. *)
Definition hasCustomPropertyReference (decl : postcss.Declaration) : bool :=
  customPropertyReferenceRegExp_test (postcss.value decl).

(** [atRule.params.replace(..., '')] with the global expression whose class
    holds the quote, the vertical bar and the double quote: every one of
    them is removed. *)
Fixpoint remove_quotes (params : string) : string :=
  match params with
  | EmptyString => EmptyString
  | String c s' =>
      if bool_decide (c = "'"%char) || bool_decide (c = "|"%char)
         || bool_decide (c = "034"%char)
      then remove_quotes s'
      else String c (remove_quotes s')
  end.

(** [s.slice(1)]. *)
Definition slice1 (s : string) : string :=
  match s with
  | EmptyString => EmptyString
  | String _ s' => s'
  end.

(** [s.toLowerCase()], on the letters [A-Z]. *)
Fixpoint toLowerCase (s : string) : string :=
  match s with
  | EmptyString => EmptyString
  | String c s' =>
      String (if in_range "A" "Z" c then ascii_of_nat (code c + 32) else c)
             (toLowerCase s')
  end.

(** ** Walking a stylesheet *)

(** The nodes [container.walk] visits, in its order: each child, and
    after it the nodes below it. *)
Fixpoint walk_node (n : postcss.ChildNode) : list postcss.ChildNode :=
  let walk_all := fix walk_all (l : list postcss.ChildNode) :=
    match l with
    | [] => []
    | c :: l' => walk_node c ++ walk_all l'
    end in
  n :: match n with
       | postcss.AtRule _ _ children | postcss.Rule _ children => walk_all children
       | postcss.Decl _ _ | postcss.Comment _ => []
       end.

Definition walk (root : postcss.Root) : list postcss.ChildNode :=
  flat_map walk_node (postcss.nodes root).

(** The at-rules [root.walkAtRules(name, ...)] visits. *)
Definition walkAtRules (name : string) (root : postcss.Root)
    : list postcss.AtRuleNode :=
  omap (λ n, match n with
             | postcss.AtRule name' params _ =>
                 if bool_decide (name' = name)
                 then Some (postcss.mkAtRule name' params) else None
             | _ => None
             end) (walk root).

(** The declarations [root.walkDecls(...)] visits. *)
Definition walkDecls (root : postcss.Root) : list postcss.Declaration :=
  omap (λ n, match n with
             | postcss.Decl prop value => Some (postcss.mkDecl prop value)
             | _ => None
             end) (walk root).

(** The declarations [root.walkDecls(regexp, ...)] visits: those whose
    property the expression matches. *)
Definition walkDecls_matching (test : string → bool) (root : postcss.Root)
    : list postcss.Declaration :=
  filter (λ d, test (postcss.prop d) = true) (walkDecls root).

(** ** The environment of the rule *)

(** The [resolver] option: each field may be left [undefined]. *)
Record Resolver : Type := mkResolver {
  paths : option (list string);
  moduleDirectories : option (list string);
  extensions : option (list string)
}.

(** The options [resolveId] hands to the [resolve] package. *)
Record ResolveOpts : Type := mkResolveOpts {
  basedir : string;
  moduleDirectory : list string;
  ro_paths : list string;
  ro_extensions : list string;
  preserveSymlinks : bool
}.

(** An object read for its custom properties or as the description of a
    source: the fields [type], [from], [customProperties] and
    ['custom-properties'], each [None] when absent. *)
Record JsObject : Type := mkObject {
  o_type : option string;
  o_from : option string;
  o_customProperties : option mapping;
  o_custom_properties : option mapping
}.

(** What the rule takes from Node, postcss, postcss-values-parser, resolve
    and stylelint.  A function that can fail returns a completion. *)
Class World : Type := {
  (** [__dirname] *)
  dirname_of_module : string;
  (** [path.dirname], [path.isAbsolute], [path.resolve], [path.extname] *)
  path_dirname : string → string;
  path_isAbsolute : string → bool;
  path_resolve : string → string;
  path_extname : string → string;
  (** [fs.readFile(from, 'utf8')] and [fs.promises.readFile(from, 'utf8')] *)
  fs_readFile : string → completion string;
  (** [postcss.parse(css, {from})] *)
  postcss_parse : string → string → completion postcss.Root;
  (** [JSON.parse(text)] *)
  JSON_parse : string → completion JsObject;
  (** [import(from)] *)
  import_module : string → completion JsObject;
  (** [resolve(id, opts, callback)] *)
  resolve : string → ResolveOpts → completion string;
  (** [parse(value)] of postcss-values-parser *)
  values_parse : string → completion Node;
  (** [stylelint.utils.ruleMessages(ruleName, {unexpected})], as the
      function it returns for [unexpected]: the host may decorate the text
      of the rule *)
  ruleMessages :
    string → (string → string → string) → (string → string → string)
}.

(** ** The value-reference validator *)

Definition ruleName : string := "csstools/value-no-unknown-custom-properties".

(** The double-quote character of the message template. *)
Definition dquote : string := String "034"%char EmptyString.

(** The [unexpected] message function given to [ruleMessages]. *)
Definition unexpected (name prop : string) : string :=
  "Unexpected custom property " +:+ dquote +:+ name +:+ dquote +:+
  " inside declaration " +:+ dquote +:+ prop +:+ dquote +:+ ".".

(** [node.type === 'func' && node.name === 'var' && node.nodes[0].isVariable]:
    the third operand is evaluated only for a function named [var], and
    reading [isVariable] of a missing first child throws. *)
Definition isVarFunction (node : Node) : completion bool :=
  if bool_decide (type node = "func") then
    if bool_decide (name node = Some "var") then
      match nodes node with
      | Some (first :: _) => Normal (isVariable first)
      | Some [] | None => Throw TypeError
      end
    else Normal false
  else Normal false.

Section Validator.

Context {W : World}.

(** [messages.unexpected]. *)
Definition messages_unexpected : string → string → string :=
  ruleMessages ruleName unexpected.

(** The second argument of [validateValueAST], [{result, customProperties,
    decl}]: [result] is the state of [M]. *)
Variable customProperties : mapping.
Variable decl : postcss.Declaration.

(** The report of an unknown custom property. *)
Definition unknown_report (propertyName : option string) : Report :=
  {| message := messages_unexpected (js_String propertyName) (postcss.prop decl);
     node := decl;
     ruleName_of := ruleName;
     word := js_String propertyName |}.

(** The callback of [ast.nodes.forEach] in [validateValueAST].  The walk
    over the fallbacks that are [var()] functions is written as a walk
    over all fallbacks that skips the others, once [filter] has gone
    through them all; [validateValueAST_callback_eq] below gives the
    equation with [filter] as the source has it. *)
Fixpoint validateValueAST_callback (node : Node) {struct node} : M unit :=
  match isVarFunction node with
  | Throw e => throw e
  | Normal true =>
      match nodes node with
      | Some (propertyNode :: rest) =>
          let propertyName := value propertyNode in
          if js_in propertyName customProperties then ret tt
          else
            match rest with
            | _comma :: ((_ :: _) as fallbacks) =>
                match js_filter isVarFunction fallbacks with
                | Throw e => throw e
                | Normal _ =>
                    (fix walk (l : list Node) : M unit :=
                       match l with
                       | [] => ret tt
                       | x :: l' =>
                           match isVarFunction x with
                           | Normal true => validateValueAST_callback x ;; walk l'
                           | _ => walk l'
                           end
                       end) fallbacks
                end
            | _ => report (unknown_report propertyName)
            end
      | Some [] | None => throw TypeError
      end
  | Normal false =>
      match nodes node with
      | Some children =>
          (fix walk (l : list Node) : M unit :=
             match l with
             | [] => ret tt
             | x :: l' => validateValueAST_callback x ;; walk l'
             end) children
      | None => ret tt
      end
  end.

(** [validateValueAST(ast, {result, customProperties, decl})], as a
    function of [ast.nodes]. *)
Definition validateValueAST (ast_nodes : option (list Node)) : M unit :=
  match ast_nodes with
  | Some ((_ :: _) as l) => forEach validateValueAST_callback l
  | Some [] | None => ret tt
  end.

End Validator.

(** ** The custom-property resolver *)

Section Resolver.

Context {W : World}.

(** [resolveId(id, basedir, {paths, moduleDirectories, extensions})] with
    the defaults of its parameter. *)
Definition resolveId (id basedir : string) (opts : Resolver)
    : completion string :=
  resolve id
    {| basedir := basedir;
       moduleDirectory := default ["node_modules"] (moduleDirectories opts);
       ro_paths := default [] (paths opts);
       ro_extensions := default [".css"] (extensions opts);
       preserveSymlinks := false |}.

(** The directory imports are resolved from. *)
Definition sourceDir (root : postcss.Root) : string :=
  match postcss.file root with
  | Some file => if bool_decide (file = "") then dirname_of_module
                 else path_dirname file
  | None => dirname_of_module
  end.

(** [getCustomPropertiesFromCSSFile$1(from, resolver)], over the call of
    [getCustomPropertiesFromRoot] it makes: whatever is thrown is caught
    and an empty object returned. *)
Definition getCustomPropertiesFromCSSFile_1_with
    (fromRoot : postcss.Root → Resolver → option mapping)
    (from : string) (resolver : Resolver) : option mapping :=
  match fs_readFile from with
  | Throw _ => Some ∅
  | Normal css =>
      match postcss_parse css from with
      | Throw _ => Some ∅
      | Normal root => fromRoot root resolver
      end
  end.

(** The promise pushed on [importPromises] for one [@import], as the value
    it is fulfilled with ([None] inside is [undefined], the result of the
    [catch] handler). *)
Definition importPromise_with
    (fromRoot : postcss.Root → Resolver → option mapping)
    (dir : string) (resolver : Resolver) (atRule : postcss.AtRuleNode)
    : option (option mapping) :=
  let fileName := remove_quotes (postcss.params atRule) in
  if path_isAbsolute fileName then
    Some <$> getCustomPropertiesFromCSSFile_1_with fromRoot fileName resolver
  else
    match resolveId fileName dir
            {| paths := paths resolver;
               extensions := extensions resolver;
               moduleDirectories := moduleDirectories resolver |} with
    | Normal filePath =>
        Some <$> getCustomPropertiesFromCSSFile_1_with fromRoot filePath resolver
    | Throw _ => Some None
    end.

(** [Promise.all(promises)]: the values in the order of the promises, once
    all are fulfilled. *)
Definition Promise_all {A} (promises : list (option A)) : option (list A) :=
  mapM id promises.

(** The local declarations written over the mapping, in walk order. *)
Definition write_declarations (customProperties : mapping)
    (decls : list postcss.Declaration) : mapping :=
  foldl (λ m d, <[postcss.prop d := postcss.value d]> m) customProperties decls.

(** [getCustomPropertiesFromRoot(root, resolver)].  The imports of a file
    are followed without any bound, so the function is given the number
    of nested calls it may make; the result is [None] when that number
    is reached, which stands for a promise that is never settled. *)
Fixpoint getCustomPropertiesFromRoot (fuel : nat) (root : postcss.Root)
    (resolver : Resolver) : option mapping :=
  match fuel with
  | O => None
  | S fuel' =>
      let importPromises :=
        map (importPromise_with (getCustomPropertiesFromRoot fuel')
               (sourceDir root) resolver)
            (walkAtRules "import" root) in
      match Promise_all importPromises with
      | None => None
      | Some results =>
          let customProperties := foldl Object_assign ∅ results in
          Some (write_declarations customProperties
                  (walkDecls_matching customPropertyRegExp_test root))
      end
  end.

(** [getCustomPropertiesFromCSSFile$1(from, resolver)]. *)
Definition getCustomPropertiesFromCSSFile_1 (fuel : nat) (from : string)
    (resolver : Resolver) : option mapping :=
  getCustomPropertiesFromCSSFile_1_with (getCustomPropertiesFromRoot fuel)
    from resolver.

(** The mapping merged from the imports of [root], before its own
    declarations are written. *)
Definition importedCustomProperties (fuel : nat) (root : postcss.Root)
    (resolver : Resolver) : option mapping :=
  foldl Object_assign ∅ <$>
    Promise_all (map (importPromise_with (getCustomPropertiesFromRoot fuel)
                        (sourceDir root) resolver)
                     (walkAtRules "import" root)).

(** *** Loaders of the configured sources *)

(** [readFile(from)]; [from] is [None] when the source has no such
    field. *)
Definition readFile (from : option string) : completion string :=
  match from with
  | Some path => fs_readFile path
  | None => Throw TypeError
  end.

(** [readJSON(from)]. *)
Definition readJSON (from : option string) : completion JsObject :=
  match readFile from with
  | Normal text => JSON_parse text
  | Throw e => Throw e
  end.

(** [getCustomPropertiesFromCSSFile(from, resolver)]: nothing is caught. *)
Definition getCustomPropertiesFromCSSFile (fuel : nat) (from : option string)
    (resolver : Resolver) : option (completion mapping) :=
  match readFile from with
  | Throw e => Some (Throw e)
  | Normal css =>
      match postcss_parse css (js_String from) with
      | Throw e => Some (Throw e)
      | Normal root => Normal <$> getCustomPropertiesFromRoot fuel root resolver
      end
  end.

(** [getCustomPropertiesFromObject(object)]. *)
Definition getCustomPropertiesFromObject (object : JsObject) : mapping :=
  Object_assign (Object_assign ∅ (o_customProperties object))
                (o_custom_properties object).

(** [getCustomPropertiesFromJSONFile(from)]. *)
Definition getCustomPropertiesFromJSONFile (from : option string)
    : completion mapping :=
  match readJSON from with
  | Normal object => Normal (getCustomPropertiesFromObject object)
  | Throw e => Throw e
  end.

(** [getCustomPropertiesFromJSFile(from)]. *)
Definition getCustomPropertiesFromJSFile (from : option string)
    : completion mapping :=
  match import_module (js_String from) with
  | Normal object => Normal (getCustomPropertiesFromObject object)
  | Throw e => Throw e
  end.

End Resolver.

(** ** The sources of [importFrom] *)

(** One entry of [importFrom].  A promise and the result of a function are
    given as the completion [await] gets from them. *)
Inductive Source : Type :=
  | SourcePromise (settled : completion JsObject)
  | SourceFunction (returned : completion JsObject)
  | SourceObject (object : JsObject)
  | SourceString (path : string).

(** [a || b] on strings that may be [undefined]: the empty string is
    falsy. *)
Definition js_or (a : option string) (b : string) : string :=
  match a with
  | Some s => if bool_decide (s = "") then b else s
  | None => b
  end.

Section Sources.

Context {W : World}.

(** The callback of [sources.map] in [getCustomPropertiesFromSources],
    for a source that is an object ([opts]). *)
Definition source_of_opts (opts : JsObject) : JsObject :=
  if bool_decide (is_Some (o_customProperties opts))
     || bool_decide (is_Some (o_custom_properties opts))
  then opts
  else
    let from := path_resolve (js_or (o_from opts) "") in
    let type := toLowerCase (js_or (o_type opts) (slice1 (path_extname from))) in
    {| o_type := Some type; o_from := Some from;
       o_customProperties := None; o_custom_properties := None |}.

(** The callback of [sources.map], followed by the [await source] of the
    reducer. *)
Definition awaited_source (source : Source) : completion JsObject :=
  match source with
  | SourcePromise settled => settled
  | SourceFunction returned => returned
  | SourceObject object => Normal (source_of_opts object)
  | SourceString path =>
      Normal (source_of_opts
                {| o_type := None; o_from := Some path;
                   o_customProperties := None; o_custom_properties := None |})
  end.

(** [Object.assign(await customProperties, await loaded)]: the accumulator
    is awaited first, and the loader runs only once it is fulfilled. *)
Definition assign_awaited (customProperties : option (completion mapping))
    (loaded : option (completion mapping)) : option (completion mapping) :=
  match customProperties with
  | None => None
  | Some (Throw e) => Some (Throw e)
  | Some (Normal target) =>
      match loaded with
      | None => None
      | Some (Throw e) => Some (Throw e)
      | Some (Normal properties) =>
          Some (Normal (Object_assign target (Some properties)))
      end
  end.

(** The reducer of [getCustomPropertiesFromSources]. *)
Definition reducer (fuel : nat) (resolver : Resolver)
    (customProperties : option (completion mapping))
    (source : completion JsObject) : option (completion mapping) :=
  match source with
  | Throw e => Some (Throw e)
  | Normal object =>
      let type := o_type object in
      let from := o_from object in
      if bool_decide (type = Some "css") then
        assign_awaited customProperties
          (getCustomPropertiesFromCSSFile fuel from resolver)
      else if bool_decide (type = Some "js") then
        assign_awaited customProperties
          (Some (getCustomPropertiesFromJSFile from))
      else if bool_decide (type = Some "json") then
        assign_awaited customProperties
          (Some (getCustomPropertiesFromJSONFile from))
      else
        assign_awaited customProperties
          (Some (Normal (getCustomPropertiesFromObject object)))
  end.

(** [getCustomPropertiesFromSources(sources, resolver)], as the settlement
    of the promise it returns. *)
Definition getCustomPropertiesFromSources (fuel : nat) (sources : list Source)
    (resolver : Resolver) : option (completion mapping) :=
  foldl (reducer fuel resolver) (Some (Normal ∅)) (map awaited_source sources).

End Sources.

(** ** The rule *)

(** The primary option of the rule. *)
Inductive Method : Type := MTrue | MFalse | MNull | MOther (text : string).

#[global] Instance Method_eq_dec : EqDecision Method.
Proof. solve_decision. Defined.

Definition isMethodEnabled (method : Method) : bool :=
  bool_decide (method = MTrue).

Definition isMethodDisabled (method : Method) : bool :=
  bool_decide (method = MNull) || bool_decide (method = MFalse).

(** The secondary options, after [[].concat(Object(opts).importFrom || [])]
    and [Object(opts).resolver || {}]. *)
Record Options : Type := mkOptions {
  importFrom : list Source;
  resolver : Resolver
}.

(** What the callback returned by the rule closes over.  The promise is
    fulfilled with one object, made once; [customPropertiesPromise] gives
    the settlement of the promise with the present contents of that object
    ([None]: never settled). *)
Record Rule : Type := mkRule {
  rule_method : Method;
  rule_resolver : Resolver;
  customPropertiesPromise : option (completion mapping)
}.

Section Plugin.

Context {W : World}.

(** [validateDecl(decl, {result, customProperties})]. *)
Definition validateDecl (customProperties : mapping)
    (decl : postcss.Declaration) : M unit :=
  match values_parse (postcss.value decl) with
  | Throw e => throw e
  | Normal valueAST => validateValueAST customProperties decl (nodes valueAST)
  end.

(** [validateResult(result, customProperties)], over [result.root]. *)
Definition validateResult (root : postcss.Root) (customProperties : mapping)
    : M unit :=
  forEach (λ decl, if hasCustomPropertyReference decl
                   then validateDecl customProperties decl
                   else ret tt)
          (walkDecls root).

(** The function given to [createPlugin], called with the options. *)
Definition createRule (fuel : nat) (method : Method) (opts : Options) : Rule :=
  {| rule_method := method;
     rule_resolver := resolver opts;
     customPropertiesPromise :=
       if isMethodEnabled method
       then getCustomPropertiesFromSources fuel (importFrom opts) (resolver opts)
       else Some (Normal ∅) |}.

(** The value [stylelint.utils.validateOptions(result, ruleName, {actual:
    method, possible})] returns to the rule, with the rule's [possible].
    What the call itself does to [result] (the host records a warning for
    an option that is not possible) is in [rule_callback] below. *)
Definition validateOptions (method : Method) : bool :=
  isMethodEnabled method || isMethodDisabled method.

(** The mapping a stylesheet is validated against:
    [Object.assign(await customPropertiesPromise,
                   await getCustomPropertiesFromRoot(root, resolver))].
    The target of [Object.assign] is the object of the promise. *)
Definition customProperties_for (fuel : nat) (rule : Rule)
    (root : postcss.Root) : option (completion mapping) :=
  match customPropertiesPromise rule with
  | None => None
  | Some (Throw e) => Some (Throw e)
  | Some (Normal target) =>
      match getCustomPropertiesFromRoot fuel root (rule_resolver rule) with
      | None => None
      | Some properties => Some (Normal (Object_assign target (Some properties)))
      end
  end.

(** The callback of the rule, [async (root, result) => ...]: its
    completion, the reports the rule makes with [stylelint.utils.report],
    and the rule afterwards.  What [validateOptions] does to [result] is
    added in [rule_callback] below. *)
Definition lint (fuel : nat) (rule : Rule) (root : postcss.Root)
    (result : list Report) : option (completion unit * list Report * Rule) :=
  let isMethodValid := validateOptions (rule_method rule) in
  if isMethodValid && isMethodEnabled (rule_method rule) then
    match customProperties_for fuel rule root with
    | None => None
    | Some (Throw e) => Some (Throw e, result, rule)
    | Some (Normal customProperties) =>
        let '(c, result') := validateResult root customProperties result in
        Some (c, result',
              {| rule_method := rule_method rule;
                 rule_resolver := rule_resolver rule;
                 customPropertiesPromise := Some (Normal customProperties) |})
    end
  else Some (Normal tt, result, rule).

End Plugin.

(** ** Well-formed value trees *)

(** Whether every function node named [var], in [n] and below it, has a
    first argument node. *)
Fixpoint var_arguments_nonempty (n : Node) : bool :=
  match n with
  | mkNode ty nm _ _ ns =>
      (negb (bool_decide (ty = "func") && bool_decide (nm = Some "var"))
       || match ns with
          | Some (_ :: _) => true
          | Some [] | None => false
          end)
      && match ns with
         | Some children =>
             (fix all (l : list Node) : bool :=
                match l with
                | [] => true
                | x :: l' => var_arguments_nonempty x && all l'
                end) children
         | None => true
         end
  end.

(** ** What a source and a stylesheet define *)

Section Defined.

Context {W : World}.

(** The mapping the reducer of [getCustomPropertiesFromSources] loads for an
    awaited source, by the [type] of the source. *)
Definition loaded_mapping (fuel : nat) (resolver : Resolver)
    (object : JsObject) : option (completion mapping) :=
  if bool_decide (o_type object = Some "css") then
    getCustomPropertiesFromCSSFile fuel (o_from object) resolver
  else if bool_decide (o_type object = Some "js") then
    Some (getCustomPropertiesFromJSFile (o_from object))
  else if bool_decide (o_type object = Some "json") then
    Some (getCustomPropertiesFromJSONFile (o_from object))
  else Some (Normal (getCustomPropertiesFromObject object)).

(** A source whose mapping is loaded, and is [properties]. *)
Definition source_defines (fuel : nat) (resolver : Resolver)
    (source : Source) (properties : mapping) : Prop :=
  ∃ object, awaited_source source = Normal object ∧
            loaded_mapping fuel resolver object = Some (Normal properties).

(** A file that cannot be read or parsed as a stylesheet. *)
Definition css_fails (from : string) (e : exn) : Prop :=
  fs_readFile from = Throw e ∨
  ∃ css, fs_readFile from = Normal css ∧ postcss_parse css from = Throw e.


End Defined.

(** The value a name has in the last of the mappings that has it. *)
Definition last_defined (name : string) (mappings : list mapping)
    : option string :=
  foldl (λ found m, match m !! name with
                    | Some v => Some v
                    | None => found
                    end) None mappings.

(** The value of the last of the declarations whose property is [name]. *)
Definition last_declared (name : string) (decls : list postcss.Declaration)
    : option string :=
  foldl (λ found d, if bool_decide (postcss.prop d = name)
                    then Some (postcss.value d) else found) None decls.

(** ** A small world for the examples *)

Module Example.

(** The extension of a path: what starts at its last dot. *)
Fixpoint last_dot (path : string) : option string :=
  match path with
  | EmptyString => None
  | String c path' =>
      match last_dot path' with
      | Some ext => Some ext
      | None => if bool_decide (c = "."%char) then Some path else None
      end
  end.

Definition lookup_table {A} (table : list (string * A)) (key : string)
    : option A :=
  snd <$> List.find (λ entry, bool_decide (entry.1 = key)) table.

Definition a_css : string := "@import './b.css'; :root { --x: 1 }".
Definition b_css : string := ":root { --x: 2; --y: 3 }".
Definition first_css : string := ":root { --a: 1 }".
Definition second_css : string := ".x { color: var(--a) }".
Definition private_css : string := ":root { --_x: 1 }".

(** The files of the example: two stylesheets and a JSON file. *)
Definition files : list (string * string) :=
  [("/a.css", a_css); ("/b.css", b_css); ("/tokens.json", "tokens")].

(** What [postcss.parse] returns for each text. *)
Definition stylesheets : list (string * list postcss.ChildNode) :=
  [(a_css, [postcss.AtRule "import" "'./b.css'" [];
            postcss.Rule ":root" [postcss.Decl "--x" "1"]]);
   (b_css, [postcss.Rule ":root" [postcss.Decl "--x" "2";
                                  postcss.Decl "--y" "3"]]);
   (first_css, [postcss.Rule ":root" [postcss.Decl "--a" "1"]]);
   (second_css, [postcss.Rule ".x" [postcss.Decl "color" "var(--a)"]]);
   (private_css, [postcss.Rule ":root" [postcss.Decl "--_x" "1"]])].

Definition word_node (text : string) : Node :=
  {| type := "word"; name := None; value := Some text;
     isVariable := bool_decide (String.prefix "--" text = true);
     nodes := None |}.

Definition punctuation_node (text : string) : Node :=
  {| type := "punctuation"; name := None; value := Some text;
     isVariable := false; nodes := None |}.

Definition func_node (name : string) (arguments : list Node) : Node :=
  {| type := "func"; name := Some name; value := None;
     isVariable := false; nodes := Some arguments |}.

Definition root_node (children : list Node) : Node :=
  {| type := "root"; name := None; value := None;
     isVariable := false; nodes := Some children |}.

(** What the value parser returns for each value. *)
Definition values : list (string * Node) :=
  [("var(--a)", root_node [func_node "var" [word_node "--a"]]);
   ("var(--d)", root_node [func_node "var" [word_node "--d"]]);
   ("1", root_node [word_node "1"])].

#[export] Instance world : World := {|
  dirname_of_module := "/plugin";
  path_dirname := λ _, "/";
  path_isAbsolute := String.prefix "/";
  path_resolve := λ path, if String.prefix "/" path then path else "/" +:+ path;
  path_extname := λ path, default "" (last_dot path);
  fs_readFile := λ from,
    match lookup_table files from with
    | Some text => Normal text
    | None => Throw (IOError from)
    end;
  postcss_parse := λ css from,
    match lookup_table stylesheets css with
    | Some children => Normal (postcss.mkRoot (Some from) children)
    | None => Throw SyntaxError
    end;
  JSON_parse := λ text,
    if bool_decide (text = "tokens")
    then Normal {| o_type := None; o_from := None;
                   o_customProperties := Some {[ "--x" := "0"; "--z" := "4" ]};
                   o_custom_properties := None |}
    else Throw SyntaxError;
  import_module := λ from, Throw (Rejected from);
  resolve := λ id opts,
    if bool_decide (id = "./b.css") && bool_decide (basedir opts = "/")
    then Normal "/b.css" else Throw (ResolveError id);
  values_parse := λ text,
    match lookup_table values text with
    | Some ast => Normal ast
    | None => Throw SyntaxError
    end;
  ruleMessages := λ ruleName message name prop,
    message name prop +:+ " (" +:+ ruleName +:+ ")"
|}.

Definition no_resolver : Resolver :=
  {| paths := None; moduleDirectories := None; extensions := None |}.

(** A stylesheet of the run, as the host parses it. *)
Definition stylesheet (file css : string) : postcss.Root :=
  postcss.mkRoot (Some file) (default [] (lookup_table stylesheets css)).

(** The mapping, the declaration and the values of the examples. *)
Definition palette : mapping := {[ "--c" := "red" ]}.

Definition color_decl : postcss.Declaration := postcss.mkDecl "color" "var(--d)".

(** [var(--d)] *)
Definition var_d : Node := func_node "var" [word_node "--d"].

(** [var(--c, var(--unknown))] *)
Definition known_with_fallback : Node :=
  func_node "var" [word_node "--c"; punctuation_node ",";
                   func_node "var" [word_node "--unknown"]].

(** [var(--unknown1, var(--unknown2))] *)
Definition unknown_with_fallback : Node :=
  func_node "var" [word_node "--unknown1"; punctuation_node ",";
                   func_node "var" [word_node "--unknown2"]].

(** [var(--unknown, red)] *)
Definition unknown_with_color : Node :=
  func_node "var" [word_node "--unknown"; punctuation_node ",";
                   word_node "red"].

(** [calc(var(--d) + 1px)] *)
Definition calc_d : Node :=
  func_node "calc" [var_d; word_node "+"; word_node "1px"].

(** The rule, enabled, without sources. *)
Definition plain_rule : Rule :=
  createRule 1 MTrue {| importFrom := []; resolver := no_resolver |}.

(** The rule options with a stylesheet and a JSON file as sources. *)
Definition two_sources : Options :=
  {| importFrom := [SourceString "/a.css"; SourceString "tokens.json"];
     resolver := no_resolver |}.

End Example.

(** ** What the validator keeps *)

(** A computation that only adds reports, the same ones whatever the
    reports made before it. *)
Definition appends_only (c : M unit) : Prop :=
  ∀ result, c result = ((c []).1, result ++ (c []).2).

(** Whenever the first computation returns, the second returns too, with
    some of the reports of the first, in their order. *)
Definition fewer_reports (c1 c2 : M unit) : Prop :=
  appends_only c1 ∧ appends_only c2 ∧
  ∀ s1, c1 [] = (Normal tt, s1) →
        ∃ s2, c2 [] = (Normal tt, s2) ∧ s2 `sublist_of` s1.

Section Reports.

Context {W : World}.

(** A report of the rule on [decl] for a name that is no key of
    [customProperties]. *)
Definition report_of_unknown (customProperties : mapping)
    (decl : postcss.Declaration) (r : Report) : Prop :=
  customProperties !! word r = None ∧
  message r = messages_unexpected (word r) (postcss.prop decl) ∧
  node r = decl ∧
  ruleName_of r = ruleName.

(** An [@import] that gives nothing: its file is not resolved, or is not
    read, or is not parsed. *)
Definition import_fails (dir : string) (resolver : Resolver)
    (atRule : postcss.AtRuleNode) : Prop :=
  let fileName := remove_quotes (postcss.params atRule) in
  if path_isAbsolute fileName then ∃ e, css_fails fileName e
  else
    match resolveId fileName dir
            {| paths := paths resolver;
               extensions := extensions resolver;
               moduleDirectories := moduleDirectories resolver |} with
    | Normal filePath => ∃ e, css_fails filePath e
    | Throw _ => True
    end.

(** The [type] the reducer sees for a source given as a string. *)
Definition type_of_path (path : string) : string :=
  toLowerCase (js_or None (slice1 (path_extname (path_resolve (js_or (Some path) ""))))).

End Reports.

(** The types of source the reducer has a loader for. *)
Definition file_type (type : option string) : Prop :=
  type = Some "css" ∨ type = Some "js" ∨ type = Some "json".

(** The character before the end of [before], or [previous] when [before]
    is empty. *)
Fixpoint last_char (previous : option ascii) (before : string) : option ascii :=
  match before with
  | EmptyString => previous
  | String c before' => last_char (Some c) before'
  end.

(** The alternative [(^|[^\w-])] after the character [previous]. *)
Definition boundary (previous : option ascii) : bool :=
  match previous with
  | None => true
  | Some c => negb (word_or_hyphen c)
  end.

(** ** A second world: imports that loop, fail, or define a name twice *)

Module Imports.

Definition loop_css : string := "@import '/loop.css'; :root { --l: 1 }".
Definition two_css : string := "@import '/p.css'; @import '/q.css'".
Definition p_css : string := ":root { --k: p }".
Definition q_css : string := ":root { --k: q; --j: 2 }".
Definition broken_css : string :=
  "@import './nowhere.css'; @import '/missing.css'; a { --m: 1; color: red }".

Definition files : list (string * string) :=
  [("/loop.css", loop_css); ("/two.css", two_css); ("/p.css", p_css);
   ("/q.css", q_css); ("/broken.css", broken_css); ("/notes.txt", "notes")].

Definition stylesheets : list (string * list postcss.ChildNode) :=
  [(loop_css, [postcss.AtRule "import" "'/loop.css'" [];
               postcss.Rule ":root" [postcss.Decl "--l" "1"]]);
   (two_css, [postcss.AtRule "import" "'/p.css'" [];
              postcss.AtRule "import" "'/q.css'" []]);
   (p_css, [postcss.Rule ":root" [postcss.Decl "--k" "p"]]);
   (q_css, [postcss.Rule ":root" [postcss.Decl "--k" "q";
                                  postcss.Decl "--j" "2"]]);
   (broken_css, [postcss.AtRule "import" "'./nowhere.css'" [];
                 postcss.AtRule "import" "'/missing.css'" [];
                 postcss.Rule "a" [postcss.Decl "--m" "1";
                                   postcss.Decl "color" "red"]])].

#[export] Instance world : World := {|
  dirname_of_module := "/plugin";
  path_dirname := λ _, "/";
  path_isAbsolute := String.prefix "/";
  path_resolve := λ path, if String.prefix "/" path then path else "/" +:+ path;
  path_extname := λ path, default "" (Example.last_dot path);
  fs_readFile := λ from,
    match Example.lookup_table files from with
    | Some text => Normal text
    | None => Throw (IOError from)
    end;
  postcss_parse := λ css from,
    match Example.lookup_table stylesheets css with
    | Some children => Normal (postcss.mkRoot (Some from) children)
    | None => Throw SyntaxError
    end;
  JSON_parse := λ _, Throw SyntaxError;
  import_module := λ from, Throw (Rejected from);
  resolve := λ id _, Throw (ResolveError id);
  values_parse := λ _, Throw SyntaxError;
  ruleMessages := λ ruleName message name prop,
    message name prop +:+ " (" +:+ ruleName +:+ ")"
|}.

Definition stylesheet (file css : string) : postcss.Root :=
  postcss.mkRoot (Some file)
    (default [] (Example.lookup_table stylesheets css)).

End Imports.

(** ** The host *)


Section Callback.

Context {W : World}.

(** The part of [result] that the rule never writes itself, and what
    [stylelint.utils.validateOptions(result, ruleName, {actual, possible})]
    does to it, given the rule name, [actual] and the value of
    [possible()]: both are the host's. *)
Variable HostResult : Type.
Variable host_validateOptions : string → Method → bool → HostResult → HostResult.

(** The callback of the rule on the whole of [result]: the call of
    [validateOptions] on it, and then [lint]. *)
Definition rule_callback (fuel : nat) (rule : Rule) (root : postcss.Root)
    (host : HostResult) (result : list Report)
    : HostResult * option (completion unit * list Report * Rule) :=
  (host_validateOptions ruleName (rule_method rule)
     (isMethodEnabled (rule_method rule) || isMethodDisabled (rule_method rule))
     host,
   lint fuel rule root result).


End Callback.

(** * Properties *)

(** ** Induction over value trees *)

(** Induction over a node and, through [nodes], all its children. *)
Lemma Node_ind' (P : Node → Prop)
    (Hleaf : ∀ ty nm v iv, P (mkNode ty nm v iv None))
    (Hcont : ∀ ty nm v iv l, Forall P l → P (mkNode ty nm v iv (Some l))) :
  ∀ n, P n.
Proof.
  fix IH 1. intros [ty nm v iv [l|]]; [|apply Hleaf].
  apply Hcont. induction l as [|n l IHl]; constructor; [apply IH | apply IHl].
Qed.

(** ** The monad of the validator *)

Lemma bind_normal {A B} (c : M A) (k : A → M B) a result result' :
  c result = (Normal a, result') → bind c k result = k a result'.
Proof. unfold bind. by intros ->. Qed.

Lemma bind_throw {A B} (c : M A) (k : A → M B) e result result' :
  c result = (Throw e, result') → bind c k result = (Throw e, result').
Proof. unfold bind. by intros ->. Qed.

Lemma forEach_app {A} (callback : A → M unit) l1 l2 result result1 :
  forEach callback l1 result = (Normal tt, result1) →
  forEach callback (l1 ++ l2) result = forEach callback l2 result1.
Proof.
  revert result. induction l1 as [|x l1 IH]; intros result; simpl.
  - unfold ret. by intros [= ->].
  - unfold bind at 1. destruct (callback x result) as [[[]|e] r] eqn:Hx; [|done].
    intros Hl1. rewrite (bind_normal _ _ _ _ _ Hx). by apply IH.
Qed.

Lemma js_filter_total {A} (predicate : A → completion bool) (test : A → bool) l :
  Forall (λ x, predicate x = Normal (test x)) l →
  js_filter predicate l = Normal (List.filter test l).
Proof.
  induction 1 as [|x l Hx _ IH]; simpl; [done|].
  rewrite Hx, IH. done.
Qed.

(** ** The validator *)

Section ValidatorProperties.

Context {W : World}.
Variable customProperties : mapping.
Variable decl : postcss.Declaration.

Abbreviation callback := (validateValueAST_callback customProperties decl).
Abbreviation validate := (validateValueAST customProperties decl).

(** The walk that skips the fallbacks that are no [var()] functions is
    [forEach] over the fallbacks [filter] keeps. *)
Lemma walk_var_functions fallbacks kept :
  js_filter isVarFunction fallbacks = Normal kept →
  (fix walk (l : list Node) : M unit :=
     match l with
     | [] => ret tt
     | x :: l' =>
         match isVarFunction x with
         | Normal true => callback x ;; walk l'
         | _ => walk l'
         end
     end) fallbacks = forEach callback kept.
Proof.
  revert kept. induction fallbacks as [|x l IH]; intros kept; simpl.
  - by intros [= <-].
  - destruct (isVarFunction x) as [b|e]; [|done].
    destruct (js_filter isVarFunction l) as [kept'|e]; [|done].
    intros [= <-]. rewrite (IH kept' eq_refl). by destruct b.
Qed.

Lemma walk_children children :
  (fix walk (l : list Node) : M unit :=
     match l with
     | [] => ret tt
     | x :: l' => callback x ;; walk l'
     end) children = validate (Some children).
Proof.
  destruct children as [|x l]; [done|]. simpl. f_equal.
  induction l as [|y l IH]; [done|]. simpl. by rewrite IH.
Qed.

(** [validateValueAST] as the source writes it. *)
Lemma validateValueAST_eq ast_nodes :
  validate ast_nodes =
    if bool_decide (length (default [] ast_nodes) ≠ 0)
    then forEach callback (default [] ast_nodes)
    else ret tt.
Proof. by destruct ast_nodes as [[|x l]|]. Qed.

(** The callback of [forEach] as the source writes it: [fallbacks] are
    the nodes after the first two, and the recursive call is made on the
    ones [filter(isVarFunction)] keeps. *)
Lemma validateValueAST_callback_eq node :
  callback node =
    match isVarFunction node with
    | Throw e => throw e
    | Normal true =>
        match nodes node with
        | Some (propertyNode :: rest) =>
            let fallbacks := drop 1 rest in
            let propertyName := value propertyNode in
            if js_in propertyName customProperties then ret tt
            else if bool_decide (length fallbacks ≠ 0) then
              match js_filter isVarFunction fallbacks with
              | Throw e => throw e
              | Normal kept => validate (Some kept)
              end
            else report (unknown_report decl propertyName)
        | Some [] | None => throw TypeError
        end
    | Normal false => validate (nodes node)
    end.
Proof.
  destruct node as [ty nm v iv ns]. simpl.
  destruct (isVarFunction _) as [[]|e]; [| |done].
  - destruct ns as [[|p rest]|]; [done| |done].
    destruct (js_in _ _); [done|].
    destruct rest as [|c [|f fs]]; [done..|].
    cbn [drop length bool_decide]. rewrite bool_decide_true by done.
    destruct (js_filter isVarFunction (f :: fs)) as [kept|e] eqn:Hk; [|done].
    rewrite (walk_var_functions _ _ Hk).
    by destruct kept.
  - destruct ns as [l|]; [|done]. apply walk_children.
Qed.


(** A reference whose name is known is satisfied, whatever follows the
    name. *)
Lemma callback_known node propertyNode rest name :
  isVarFunction node = Normal true →
  nodes node = Some (propertyNode :: rest) →
  value propertyNode = Some name →
  is_Some (customProperties !! name) →
  callback node = ret tt.
Proof.
  intros Hvar Hnodes Hname Hin. rewrite validateValueAST_callback_eq, Hvar, Hnodes.
  cbn zeta. unfold js_in. rewrite Hname. cbn [js_String].
  by rewrite bool_decide_true.
Qed.


(** A reference whose name is unknown and that has fallbacks is checked
    through the fallbacks that are [var()] functions, and only them. *)
Lemma callback_unknown_fallbacks node propertyNode rest name kept :
  isVarFunction node = Normal true →
  nodes node = Some (propertyNode :: rest) →
  value propertyNode = Some name →
  customProperties !! name = None →
  drop 1 rest ≠ [] →
  js_filter isVarFunction (drop 1 rest) = Normal kept →
  callback node = forEach callback kept.
Proof.
  intros Hvar Hnodes Hname Hnotin Hrest Hkept.
  rewrite validateValueAST_callback_eq, Hvar, Hnodes. cbn zeta.
  unfold js_in. rewrite Hname, Hkept. cbn [js_String].
  rewrite bool_decide_false by (rewrite Hnotin; by intros [? ?]).
  rewrite bool_decide_true by (by destruct (drop 1 rest)).
  by destruct kept.
Qed.

(** The node at a position of the value is validated once the nodes
    before it have been. *)
Lemma validate_occurrence pre node post result result1 :
  forEach callback pre result = (Normal tt, result1) →
  validate (Some (pre ++ node :: post)) result =
    (callback node ;; forEach callback post) result1.
Proof.
  intros Hpre.
  assert (validate (Some (pre ++ node :: post)) =
          forEach callback (pre ++ node :: post)) as -> by (by destruct pre).
  by rewrite (forEach_app _ _ _ _ _ Hpre).
Qed.


(** A node that is no [var()] function is walked through: the validator
    comes to the references below it. *)
Lemma callback_container node :
  isVarFunction node = Normal false →
  callback node = validate (nodes node).
Proof. intros Hvar. by rewrite validateValueAST_callback_eq, Hvar. Qed.


(** C9: a reference whose name is unknown and that has fallbacks, none of
    which is a [var()] function, emits nothing. *)
Theorem non_var_fallback_suppresses_report
    (node propertyNode : Node) (rest : list Node) (name : string)
    (result : list Report) :
  isVarFunction node = Normal true →
  nodes node = Some (propertyNode :: rest) →
  value propertyNode = Some name →
  customProperties !! name = None →
  drop 1 rest ≠ [] →
  Forall (λ fallback, isVarFunction fallback = Normal false) (drop 1 rest) →
  callback node result = (Normal tt, result).
Proof.
  intros Hvar Hnodes Hname Hnotin Hrest Hnone.
  rewrite (callback_unknown_fallbacks _ _ _ name [] Hvar Hnodes Hname);
    [done..|].
  rewrite (js_filter_total _ (λ _, false) _ Hnone).
  f_equal. generalize (drop 1 rest). intros l. by induction l.
Qed.

(** The test of a node throws exactly when the node is a function named
    [var] without a first argument node. *)
Lemma isVarFunction_throws node e :
  isVarFunction node = Throw e ↔
  e = TypeError ∧ type node = "func" ∧ name node = Some "var" ∧
  default [] (nodes node) = [].
Proof.
  unfold isVarFunction. split.
  - repeat case_bool_decide; try done.
    destruct (nodes node) as [[|first l]|]; [|done|]; by intros [= <-].
  - intros (-> & -> & -> & Hnodes). rewrite !bool_decide_true by done.
    by destruct (nodes node) as [[|first l]|].
Qed.

Lemma isVarFunction_true node :
  isVarFunction node = Normal true →
  ∃ first l, nodes node = Some (first :: l) ∧ isVariable first = true.
Proof.
  unfold isVarFunction. repeat case_bool_decide; try done.
  destruct (nodes node) as [[|first l]|]; [done| |done].
  intros [= ?]. by exists first, l.
Qed.

Lemma var_arguments_nonempty_inv node :
  var_arguments_nonempty node = true →
  (∃ b, isVarFunction node = Normal b) ∧
  Forall (λ child, var_arguments_nonempty child = true) (default [] (nodes node)).
Proof.
  destruct node as [ty nm v iv ns]. cbn [var_arguments_nonempty].
  intros [Hhere Hbelow]%andb_true_iff. split.
  - destruct (isVarFunction _) as [b|e] eqn:Hvar; [by eexists|].
    apply isVarFunction_throws in Hvar as (_ & Hty & Hnm & Hns). simpl in *.
    rewrite !bool_decide_true in Hhere by done.
    by destruct ns as [[|]|].
  - destruct ns as [l|]; [|by constructor]. simpl. clear Hhere.
    induction l as [|x l IH]; [by constructor|].
    apply andb_true_iff in Hbelow as [??]. constructor; auto.
Qed.

Lemma forEach_normal {A} (f : A → M unit) l :
  Forall (λ x, ∀ result, ∃ result', f x result = (Normal tt, result')) l →
  ∀ result, ∃ result', forEach f l result = (Normal tt, result').
Proof.
  induction 1 as [|x l Hx _ IH]; intros result; simpl; [by eexists|].
  destruct (Hx result) as [r1 Hr1]. rewrite (bind_normal _ _ _ _ _ Hr1).
  apply IH.
Qed.

Lemma js_filter_normal {A} (predicate : A → completion bool) l :
  Forall (λ x, ∃ b, predicate x = Normal b) l →
  ∃ kept, js_filter predicate l = Normal kept ∧ kept ⊆ l.
Proof.
  induction 1 as [|x l [b Hx] _ (kept & IH & Hsub)]; simpl.
  - by exists [].
  - rewrite Hx, IH. eexists; split; [done|].
    destruct b; [by apply list_subseteq_skip|by apply list_subseteq_cons].
Qed.

(** The callback returns on every node whose [var] functions all have a
    first argument node. *)
Lemma callback_total node :
  var_arguments_nonempty node = true →
  ∀ result, ∃ result', callback node result = (Normal tt, result').
Proof.
  induction node as [ty nm v iv|ty nm v iv l IH] using Node_ind';
    intros Hwf result; rewrite validateValueAST_callback_eq;
    apply var_arguments_nonempty_inv in Hwf as [[b Hvar] Hbelow];
    rewrite Hvar; cbn [nodes default] in *.
  - destruct b; [|by eexists].
    by apply isVarFunction_true in Hvar as (? & ? & ? & _).
  - assert (Forall (λ x, ∀ result, ∃ result',
                      callback x result = (Normal tt, result')) l) as Hl.
    { rewrite Forall_forall in IH, Hbelow |- *. intros x Hx. auto. }
    destruct b.
    + destruct l as [|p rest];
        [by apply isVarFunction_true in Hvar as (? & ? & ? & _)|].
      cbn zeta. destruct (js_in _ _); [by eexists|].
      case_bool_decide; [|by eexists].
      destruct (js_filter_normal isVarFunction (drop 1 rest)) as (kept & -> & Hsub).
      { apply Forall_forall. intros x Hx.
        apply (var_arguments_nonempty_inv x).
        rewrite Forall_forall in Hbelow. apply Hbelow.
        right. by eapply subseteq_drop. }
      rewrite validateValueAST_eq. cbn [default].
      case_bool_decide; [|by eexists]. apply forEach_normal.
      rewrite Forall_forall in Hl |- *. intros x Hx. apply Hl.
      right. eapply subseteq_drop, Hsub, Hx.
    + rewrite validateValueAST_eq. cbn [default].
      case_bool_decide; [|by eexists]. by apply forEach_normal.
Qed.

(** C10: validation returns on every value whose [var] functions all have
    an argument node, and throws, keeping the reports made so far, as soon
    as such nodes are followed by a function named [var] whose [nodes] is
    empty or absent: [isVarFunction] reads [nodes[0].isVariable] without a
    test. *)
Theorem validation_needs_var_arguments
    (pre : list Node) (result : list Report) :
  Forall (λ node, var_arguments_nonempty node = true) pre →
  ∃ result',
    validate (Some pre) result = (Normal tt, result') ∧
    ∀ (v : option string) (iv absent : bool) (post : list Node),
      validate
        (Some (pre ++ mkNode "func" (Some "var") v iv
                        (if absent then None else Some []) :: post))
        result
      = (Throw TypeError, result').
Proof.
  intros Hpre.
  destruct (forEach_normal callback pre) with (result := result)
    as [result' Hrun].
  { eapply Forall_impl; [done|]. intros x. apply callback_total. }
  exists result'. split.
  - rewrite validateValueAST_eq. cbn [default].
    case_bool_decide as Hlen; [done|].
    destruct pre; [|by simpl in Hlen; lia].
    simpl in Hrun. by injection Hrun as <-.
  - intros v iv absent post. rewrite (validate_occurrence _ _ _ _ _ Hrun).
    apply bind_throw. rewrite validateValueAST_callback_eq.
    by destruct absent.
Qed.

End ValidatorProperties.

(** ** Mappings *)

Lemma Object_assign_lookup target properties name :
  Object_assign target (Some properties) !! name =
    match properties !! name with
    | Some v => Some v
    | None => target !! name
    end.
Proof.
  unfold Object_assign. rewrite lookup_union.
  by destruct (properties !! name), (target !! name).
Qed.

(** Folding mappings over one another leaves, for each name, the value of
    the last mapping that has it. *)
Lemma foldl_union_lookup (mappings : list mapping) (target : mapping) name :
  foldl (λ acc m, m ∪ acc) target mappings !! name =
    match last_defined name mappings with
    | Some v => Some v
    | None => target !! name
    end.
Proof.
  unfold last_defined.
  induction mappings as [|m mappings IH] using rev_ind; [done|].
  rewrite !foldl_app. cbn [foldl]. rewrite lookup_union, IH.
  by destruct (m !! name), (foldl _ None mappings), (target !! name).
Qed.

(** Writing declarations leaves, for each name, the value of the last
    declaration of that name. *)
Lemma write_declarations_lookup (customProperties : mapping) decls name :
  write_declarations customProperties decls !! name =
    match last_declared name decls with
    | Some v => Some v
    | None => customProperties !! name
    end.
Proof.
  unfold write_declarations, last_declared.
  induction decls as [|d decls IH] using rev_ind; [done|].
  rewrite !foldl_app. cbn [foldl]. rewrite lookup_insert.
  case_decide; [by rewrite bool_decide_true|]. by rewrite bool_decide_false.
Qed.

(** ** The expression for custom-property names *)

(** What [customPropertyRegExp] accepts: two dashes, a character with a
    code from 65 ([A]) to 122 ([z]), and characters of [[\w-]]. *)
Lemma customPropertyRegExp_test_spec prop :
  customPropertyRegExp_test prop = true ↔
  ∃ c rest, prop = String "-" (String "-" (String c rest)) ∧
            (65 ≤ code c ≤ 122)%nat ∧
            all_chars word_or_hyphen rest = true.
Proof.
  split.
  - destruct prop as [|a1 [|a2 [|c rest]]]; try done;
      destruct a1 as [[] [] [] [] [] [] [] []]; try done;
      destruct a2 as [[] [] [] [] [] [] [] []]; try done.
    cbn [customPropertyRegExp_test]. unfold in_range.
    intros [[Hlo%Nat.leb_le Hhi%Nat.leb_le]%andb_true_iff Hrest]%andb_true_iff.
    exists c, rest. by repeat split.
  - intros (c & rest & -> & [Hlo%Nat.leb_le Hhi%Nat.leb_le] & Hrest).
    cbn [customPropertyRegExp_test]. unfold in_range.
    apply andb_true_iff. split; [|done]. apply andb_true_iff. by split.
Qed.

(** A name is among the matching declarations of a stylesheet when it is
    declared there and the expression accepts it. *)
Lemma last_declared_matching (test : string → bool) root name :
  is_Some (last_declared name (walkDecls_matching test root)) ↔
  test name = true ∧ ∃ v, postcss.mkDecl name v ∈ walkDecls root.
Proof.
  unfold walkDecls_matching, last_declared.
  induction (walkDecls root) as [|d decls IH] using rev_ind.
  - split; [by intros [? ?]|]. intros [_ [v Hin]]. by apply elem_of_nil in Hin.
  - rewrite filter_app, foldl_app. destruct d as [prop v]. cbn [filter].
    rewrite filter_cons, filter_nil. cbn [postcss.prop].
    destruct (decide (test prop = true)) as [Htest|Htest].
    + cbn [foldl postcss.prop postcss.value]. case_bool_decide as Hprop.
      * subst prop. split; [|by eexists]. intros _. split; [done|].
        exists v. apply elem_of_app. right. by apply list_elem_of_singleton.
      * rewrite IH. split; intros [? [v' Hin]]; (split; [done|]); exists v'.
        -- apply elem_of_app. by left.
        -- apply elem_of_app in Hin as [?|Hin]; [done|].
           apply list_elem_of_singleton in Hin. by injection Hin as -> _.
    + cbn [foldl]. rewrite IH.
      split; intros [? [v' Hin]]; (split; [done|]); exists v'.
      * apply elem_of_app. by left.
      * apply elem_of_app in Hin as [?|Hin]; [done|].
        apply list_elem_of_singleton in Hin. injection Hin as -> _. done.
Qed.

(** ** The resolver and the sources *)

Section ResolverProperties.

Context {W : World}.

(** The reducer awaits the accumulator and merges what the source loads. *)
Lemma reducer_eq fuel resolver customProperties object :
  reducer fuel resolver customProperties (Normal object) =
    assign_awaited customProperties (loaded_mapping fuel resolver object).
Proof.
  unfold reducer, loaded_mapping. by repeat case_bool_decide.
Qed.

Lemma getCustomPropertiesFromSources_fold fuel resolver sources mappings target :
  Forall2 (source_defines fuel resolver) sources mappings →
  foldl (reducer fuel resolver) (Some (Normal target)) (map awaited_source sources)
  = Some (Normal (foldl (λ acc m, m ∪ acc) target mappings)).
Proof.
  intros Hall. revert target.
  induction Hall as [|source m sources mappings (object & Hsrc & Hload) _ IH];
    intros target; [done|].
  cbn [map foldl]. rewrite Hsrc, reducer_eq, Hload. cbn [assign_awaited].
  apply IH.
Qed.

(** C3: when every configured source loads, the mapping of the sources is
    the fold of their mappings from left to right, each written over what
    came before, and the mapping a stylesheet is validated against is the
    mapping of the stylesheet written over that fold: a name has the value
    the stylesheet gives it or else the value of the last source that
    defines it. *)
Theorem source_precedence
    (fuel fuel' : nat) (opts : Options) (root : postcss.Root)
    (mappings : list mapping) (properties : mapping) :
  Forall2 (source_defines fuel (resolver opts)) (importFrom opts) mappings →
  getCustomPropertiesFromRoot fuel' root (resolver opts) = Some properties →
  getCustomPropertiesFromSources fuel (importFrom opts) (resolver opts)
    = Some (Normal (foldl (λ acc m, m ∪ acc) ∅ mappings)) ∧
  customProperties_for fuel' (createRule fuel MTrue opts) root
    = Some (Normal (properties ∪ foldl (λ acc m, m ∪ acc) ∅ mappings)) ∧
  ∀ name,
    (properties ∪ foldl (λ acc m, m ∪ acc) ∅ mappings) !! name =
      match properties !! name with
      | Some v => Some v
      | None => last_defined name mappings
      end.
Proof.
  intros Hsources Hroot.
  pose proof (getCustomPropertiesFromSources_fold _ _ _ _ ∅ Hsources) as Hfold.
  split; [done|]. split.
  - unfold customProperties_for, createRule. cbn.
    unfold getCustomPropertiesFromSources. by rewrite Hfold, Hroot.
  - intros name. rewrite lookup_union, foldl_union_lookup, lookup_empty.
    by destruct (properties !! name), (last_defined name mappings).
Qed.

(** The resolver, with fuel for one more nested call, writes the
    declarations of the stylesheet over what its imports give. *)
Lemma getCustomPropertiesFromRoot_S fuel root resolver :
  getCustomPropertiesFromRoot (S fuel) root resolver =
    (λ imported, write_declarations imported
                   (walkDecls_matching customPropertyRegExp_test root))
    <$> importedCustomProperties fuel root resolver.
Proof.
  unfold importedCustomProperties. cbn [getCustomPropertiesFromRoot].
  by destruct (Promise_all _).
Qed.

(** C4: once the imports of a stylesheet are loaded and merged, the resolver
    returns that mapping with the matching declarations of the stylesheet
    written over it: a name the stylesheet declares has the (raw) value of
    its last declaration there, whatever the imports give it. *)
Theorem local_over_import
    (fuel : nat) (root : postcss.Root) (resolver : Resolver)
    (imported : mapping) :
  importedCustomProperties fuel root resolver = Some imported →
  ∃ customProperties,
    getCustomPropertiesFromRoot (S fuel) root resolver = Some customProperties ∧
    customProperties =
      write_declarations imported
        (walkDecls_matching customPropertyRegExp_test root) ∧
    ∀ name,
      customProperties !! name =
        match last_declared name
                (walkDecls_matching customPropertyRegExp_test root) with
        | Some v => Some v
        | None => imported !! name
        end.
Proof.
  intros Himported. eexists. split; [|split; [done|]].
  - by rewrite getCustomPropertiesFromRoot_S, Himported.
  - intros name. apply write_declarations_lookup.
Qed.



(** C8: the mapping read from an object is its [customProperties] with its
    ['custom-properties'] written over: a name has the value of the second
    field if it is there, and else the value of the first. *)
Theorem getCustomPropertiesFromObject_merge (object : JsObject) :
  getCustomPropertiesFromObject object =
    default ∅ (o_custom_properties object) ∪ default ∅ (o_customProperties object) ∧
  ∀ name,
    getCustomPropertiesFromObject object !! name =
      match o_custom_properties object ≫= (.!! name) with
      | Some v => Some v
      | None => o_customProperties object ≫= (.!! name)
      end.
Proof.
  unfold getCustomPropertiesFromObject, Object_assign.
  destruct (o_customProperties object) as [first|],
    (o_custom_properties object) as [second|]; cbn [default mbind option_bind].
  - split; [by rewrite (right_id_L ∅ (∪))|]. intros name.
    rewrite lookup_union, (right_id_L ∅ (∪)).
    by destruct (second !! name), (first !! name).
  - split; [by rewrite (right_id_L ∅ (∪)), (left_id_L ∅ (∪))|].
    intros name. by rewrite (right_id_L ∅ (∪)).
  - split; [done|]. intros name. rewrite lookup_union, lookup_empty.
    by destruct (second !! name).
  - split; [by rewrite (left_id_L ∅ (∪))|]. done.
Qed.

End ResolverProperties.

(** ** The rule *)

Section PluginProperties.

Context {W : World}.

(** The callback of an enabled rule writes the mapping of the stylesheet
    into the object of [customPropertiesPromise]: the rule keeps it for the
    stylesheets linted afterwards. *)
Lemma lint_assigns_to_shared fuel rule root result shared properties :
  rule_method rule = MTrue →
  customPropertiesPromise rule = Some (Normal shared) →
  getCustomPropertiesFromRoot fuel root (rule_resolver rule) = Some properties →
  ∃ c result' rule',
    lint fuel rule root result = Some (c, result', rule') ∧
    customPropertiesPromise rule' = Some (Normal (properties ∪ shared)).
Proof.
  intros Hmethod Hshared Hroot.
  unfold lint, customProperties_for, validateOptions, isMethodEnabled.
  rewrite Hmethod, Hshared, Hroot. cbn [bool_decide orb andb].
  rewrite bool_decide_true by done. cbn [orb andb Object_assign].
  destruct (validateResult _ _ _) as [c result']. by eexists _, _, _.
Qed.

(** A rule that is not enabled does nothing. *)
Lemma lint_disabled fuel rule root result :
  rule_method rule ≠ MTrue →
  lint fuel rule root result = Some (Normal tt, result, rule).
Proof.
  intros Hmethod. unfold lint, isMethodEnabled.
  rewrite (bool_decide_false _ Hmethod). by rewrite andb_false_r.
Qed.


End PluginProperties.

(** ** The rule on the examples *)

Section Examples.

Import Example.

(** [var(--c, var(--unknown))] with [--c] known: no diagnostic. *)
Example known_with_fallback_silent :
  validateValueAST palette color_decl (Some [known_with_fallback]) []
  = (Normal tt, []).
Proof. reflexivity. Qed.

(** [var(--unknown1, var(--unknown2))]: one diagnostic, for [--unknown2]. *)
Example unknown_with_fallback_reports_innermost :
  validateValueAST palette color_decl (Some [unknown_with_fallback]) []
  = (Normal tt, [unknown_report color_decl (Some "--unknown2")]).
Proof. reflexivity. Qed.

(** [calc(var(--d) + 1px)]: the reference is reached inside [calc]. *)
Example calc_d_reports :
  validateValueAST palette color_decl (Some [calc_d]) []
  = (Normal tt, [unknown_report color_decl (Some "--d")]).
Proof. reflexivity. Qed.




Lemma non_var_fallback_suppresses_report_witness :
  isVarFunction unknown_with_color = Normal true ∧
  palette !! "--unknown" = None ∧
  validateValueAST_callback palette color_decl unknown_with_color []
    = (Normal tt, []).
Proof.
  split; [reflexivity|]. split; [reflexivity|].
  apply (non_var_fallback_suppresses_report palette color_decl unknown_with_color
           (word_node "--unknown") [punctuation_node ","; word_node "red"]
           "--unknown" []); try reflexivity.
  - discriminate.
  - repeat constructor.
Defined.

Lemma validation_needs_var_arguments_witness :
  ∃ result',
    validateValueAST palette color_decl (Some [calc_d]) [] = (Normal tt, result') ∧
    ∀ (v : option string) (iv absent : bool) (post : list Node),
      validateValueAST palette color_decl
        (Some ([calc_d] ++ mkNode "func" (Some "var") v iv
                             (if absent then None else Some []) :: post)) []
      = (Throw TypeError, result').
Proof.
  apply (validation_needs_var_arguments palette color_decl [calc_d] []).
  repeat constructor.
Defined.


(** File A declares [--x: 1] and imports file B, which declares [--x: 2]
    and [--y: 3]: the value of [--x] is the one of A. *)
Example a_over_b :
  getCustomPropertiesFromRoot 2 (stylesheet "/a.css" a_css) no_resolver
  = Some {[ "--x" := "1"; "--y" := "3" ]}.
Proof. vm_compute. reflexivity. Qed.

Lemma local_over_import_witness :
  importedCustomProperties 1 (stylesheet "/a.css" a_css) no_resolver
    = Some {[ "--x" := "2"; "--y" := "3" ]} ∧
  ∃ customProperties,
    getCustomPropertiesFromRoot 2 (stylesheet "/a.css" a_css) no_resolver
      = Some customProperties ∧
    customProperties !! "--x" = Some "1" ∧
    customProperties !! "--y" = Some "3".
Proof.
  assert (importedCustomProperties 1 (stylesheet "/a.css" a_css) no_resolver
          = Some {[ "--x" := "2"; "--y" := "3" ]}) as Himported
    by (vm_compute; reflexivity).
  split; [exact Himported|].
  destruct (local_over_import 1 _ _ _ Himported)
    as (customProperties & Hroot & _ & Hlookup).
  exists customProperties. split; [exact Hroot|].
  split; rewrite Hlookup; reflexivity.
Defined.

Lemma source_precedence_witness :
  ∃ customProperties,
    customProperties_for 1 (createRule 2 MTrue two_sources)
      (stylesheet "/first.css" first_css) = Some (Normal customProperties) ∧
    customProperties !! "--a" = Some "1" ∧
    customProperties !! "--x" = Some "0" ∧
    customProperties !! "--y" = Some "3" ∧
    customProperties !! "--z" = Some "4".
Proof.
  assert (Forall2 (source_defines 2 no_resolver) (importFrom two_sources)
            [ {[ "--x" := "1"; "--y" := "3" ]};
              {[ "--x" := "0"; "--z" := "4" ]} ]) as Hsources.
  { constructor; [|constructor; [|constructor]].
    - eexists. split; [reflexivity|]. vm_compute. reflexivity.
    - eexists. split; [reflexivity|]. vm_compute. reflexivity. }
  assert (getCustomPropertiesFromRoot 1 (stylesheet "/first.css" first_css)
            no_resolver = Some {[ "--a" := "1" ]}) as Hroot
    by (vm_compute; reflexivity).
  destruct (source_precedence 2 1 two_sources _ _ _ Hsources Hroot)
    as (_ & Hfor & Hlookup).
  eexists. split; [exact Hfor|].
  repeat split; rewrite Hlookup; reflexivity.
Defined.





(** C7 on the code: the range [A-z] of [customPropertyRegExp] holds the six
    characters between [Z] and [a], the underscore among them, so a
    property whose third character is an underscore is captured. *)
Theorem underscore_name_is_captured :
  customPropertyRegExp_test "--_x" = true ∧
  getCustomPropertiesFromRoot 1 (stylesheet "/private.css" private_css)
    no_resolver = Some {[ "--_x" := "1" ]}.
Proof. split; vm_compute; reflexivity. Qed.

End Examples.

(** * Further properties of the code *)

(** ** What the validator keeps *)

Lemma appends_only_ret : appends_only (ret tt).
Proof. intros result. unfold ret. cbn. by rewrite app_nil_r. Qed.

Lemma appends_only_throw e : appends_only (throw e).
Proof. intros result. unfold throw. cbn. by rewrite app_nil_r. Qed.

Lemma appends_only_report r : appends_only (report r).
Proof. by intros result. Qed.

Lemma appends_only_bind (c k : M unit) :
  appends_only c → appends_only k → appends_only (c ;; k).
Proof.
  intros Hc Hk result. unfold bind. rewrite (Hc result).
  destruct (c []) as [[[]|e] s] eqn:Hrun; cbn [fst snd].
  - rewrite (Hk (result ++ s)), (Hk s). cbn [fst snd]. by rewrite app_assoc.
  - done.
Qed.

(** What a sequence does on no report, from what its parts do. *)
Lemma bind_run (c k : M unit) :
  appends_only k →
  (c ;; k) [] =
    match c [] with
    | (Normal _, s) => ((k []).1, s ++ (k []).2)
    | (Throw e, s) => (Throw e, s)
    end.
Proof.
  intros Hk. unfold bind. destruct (c []) as [[[]|e] s]; [|done].
  by rewrite (Hk s).
Qed.

Lemma js_filter_normal_or_throw {A} (predicate : A → completion bool) l :
  (∃ kept, js_filter predicate l = Normal kept ∧ kept ⊆ l) ∨
  (∃ e, js_filter predicate l = Throw e).
Proof.
  induction l as [|x l [(kept & IH & Hsub)|[e IH]]]; simpl.
  - left. by exists [].
  - destruct (predicate x) as [b|e]; [|right; by eexists].
    rewrite IH. left. eexists; split; [done|].
    destruct b; [by apply list_subseteq_skip|by apply list_subseteq_cons].
  - destruct (predicate x) as [b|e']; [|right; by eexists].
    rewrite IH. right. by eexists.
Qed.

Section ValidatorInvariants.

Context {W : World}.
Variable decl : postcss.Declaration.

(** Every computation of the callback is made of [throw], [ret],
    [report] of a name the mapping has not, and sequences of callbacks:
    what holds of these holds of the callback on every node. *)
Lemma callback_ind (customProperties : mapping) (P : M unit → Prop) :
  (∀ e, P (throw e)) →
  P (ret tt) →
  (∀ propertyName, js_in propertyName customProperties = false →
     P (report (unknown_report decl propertyName))) →
  (∀ c k, P c → P k → P (c ;; k)) →
  ∀ node, P (validateValueAST_callback customProperties decl node).
Proof.
  intros Hthrow Hret Hreport Hbind.
  assert (∀ l, Forall (λ x, P (validateValueAST_callback customProperties decl x)) l →
               P (validateValueAST customProperties decl (Some l))) as Hlist.
  { intros l Hl.
    assert (validateValueAST customProperties decl (Some l) =
            forEach (validateValueAST_callback customProperties decl) l) as ->
      by (by destruct l).
    induction Hl as [|y l' Hy _ IH]; [done|]. cbn [forEach]. by apply Hbind. }
  intros node. induction node as [ty nm v iv|ty nm v iv l IH] using Node_ind';
    rewrite validateValueAST_callback_eq;
    destruct (isVarFunction _) as [[]|e] eqn:Hvar; cbn [nodes]; try done.
  - destruct l as [|p rest]; [done|]. cbn zeta.
    destruct (js_in _ _) eqn:Hin; [done|].
    case_bool_decide; [|by apply Hreport].
    destruct (js_filter_normal_or_throw isVarFunction (drop 1 rest))
      as [(kept & -> & Hsub)|[e ->]]; [|done].
    apply Hlist. rewrite Forall_forall in IH |- *. intros x Hx. apply IH.
    right. eapply subseteq_drop, Hsub, Hx.
  - by apply Hlist.
Qed.

Lemma callback_appends_only customProperties node :
  appends_only (validateValueAST_callback customProperties decl node).
Proof.
  apply callback_ind; auto using appends_only_ret, appends_only_throw,
    appends_only_report, appends_only_bind.
Qed.

Lemma forEach_appends_only {A} (f : A → M unit) l :
  (∀ x, appends_only (f x)) → appends_only (forEach f l).
Proof.
  intros Hf. induction l as [|x l IH]; [apply appends_only_ret|].
  cbn [forEach]. by apply appends_only_bind.
Qed.

Lemma validateValueAST_forEach customProperties l :
  validateValueAST customProperties decl (Some l) =
    forEach (validateValueAST_callback customProperties decl) l.
Proof. by destruct l. Qed.

Lemma validateValueAST_appends_only customProperties ast_nodes :
  appends_only (validateValueAST customProperties decl ast_nodes).
Proof.
  destruct ast_nodes as [l|]; [|apply appends_only_ret].
  rewrite validateValueAST_forEach. apply forEach_appends_only.
  apply callback_appends_only.
Qed.

(** X1: validation only adds reports after the ones already made, and the
    reports it adds and its completion are the same whatever was reported
    before. *)
Theorem validation_appends_reports
    (customProperties : mapping) (ast_nodes : option (list Node))
    (result : list Report) :
  validateValueAST customProperties decl ast_nodes result =
    ((validateValueAST customProperties decl ast_nodes []).1,
     result ++ (validateValueAST customProperties decl ast_nodes []).2).
Proof. apply validateValueAST_appends_only. Qed.

Lemma callback_reports_unknown customProperties node result :
  Forall (report_of_unknown customProperties decl) result →
  Forall (report_of_unknown customProperties decl)
    (validateValueAST_callback customProperties decl node result).2.
Proof.
  revert result.
  apply (callback_ind customProperties
           (λ c, ∀ result, Forall (report_of_unknown customProperties decl) result →
                           Forall (report_of_unknown customProperties decl) (c result).2)).
  - done.
  - done.
  - intros propertyName Hin result Hresult. cbn. apply Forall_app. split; [done|].
    constructor; [|done]. repeat split. cbn.
    unfold js_in in Hin. apply bool_decide_eq_false in Hin.
    by apply eq_None_not_Some.
  - intros c k Hc Hk result Hresult. unfold bind.
    specialize (Hc result Hresult).
    destruct (c result) as [[[]|e] result']; cbn in *; [by apply Hk|done].
Qed.

(** X2: every report of a validation is a report of the rule on the
    declaration, for a name that is no key of the mapping: a name the
    mapping has is never reported. *)
Theorem only_unknown_names_are_reported
    (customProperties : mapping) (ast_nodes : option (list Node)) :
  Forall (report_of_unknown customProperties decl)
    (validateValueAST customProperties decl ast_nodes []).2.
Proof.
  destruct ast_nodes as [l|]; [|by constructor].
  rewrite validateValueAST_forEach.
  assert (∀ result, Forall (report_of_unknown customProperties decl) result →
            Forall (report_of_unknown customProperties decl)
              (forEach (validateValueAST_callback customProperties decl) l result).2)
    as Hl; [|by apply Hl].
  induction l as [|x l IH]; intros result Hresult; [done|].
  cbn [forEach]. unfold bind.
  pose proof (callback_reports_unknown customProperties x result Hresult) as Hx.
  destruct (validateValueAST_callback _ _ x result) as [[[]|e] result'];
    cbn in *; [by apply IH|done].
Qed.

(** Two runs of the callback, on a mapping and on one that has its keys
    and maybe more: what relates their parts relates them. *)
Lemma callback_rel (m1 m2 : mapping) (R : M unit → M unit → Prop) :
  (∀ propertyName, js_in propertyName m1 = true → js_in propertyName m2 = true) →
  (∀ e, R (throw e) (throw e)) →
  R (ret tt) (ret tt) →
  (∀ propertyName, R (report (unknown_report decl propertyName))
                     (report (unknown_report decl propertyName))) →
  (∀ propertyName c1,
     js_in propertyName m1 = false → js_in propertyName m2 = true →
     appends_only c1 → R c1 (ret tt)) →
  (∀ c1 c2 k1 k2, R c1 c2 → R k1 k2 → R (c1 ;; k1) (c2 ;; k2)) →
  ∀ node, R (validateValueAST_callback m1 decl node)
            (validateValueAST_callback m2 decl node).
Proof.
  intros Hmono Hthrow Hret Hreport Hmix Hbind.
  assert (∀ l, Forall (λ x, R (validateValueAST_callback m1 decl x)
                              (validateValueAST_callback m2 decl x)) l →
               R (validateValueAST m1 decl (Some l))
                 (validateValueAST m2 decl (Some l))) as Hlist.
  { intros l Hl. rewrite !validateValueAST_forEach.
    induction Hl as [|y l' Hy _ IH]; [done|]. cbn [forEach]. by apply Hbind. }
  intros node. induction node as [ty nm v iv|ty nm v iv l IH] using Node_ind';
    rewrite !validateValueAST_callback_eq;
    destruct (isVarFunction _) as [[]|e] eqn:Hvar; cbn [nodes]; try done.
  - destruct l as [|p rest]; [done|]. cbn zeta.
    destruct (js_in _ m1) eqn:Hin1.
    { by rewrite (Hmono _ Hin1). }
    destruct (js_in _ m2) eqn:Hin2.
    { apply (Hmix _ _ Hin1 Hin2). case_bool_decide; [|apply appends_only_report].
      destruct (js_filter isVarFunction (drop 1 rest));
        [apply validateValueAST_appends_only|apply appends_only_throw]. }
    case_bool_decide; [|done].
    destruct (js_filter_normal_or_throw isVarFunction (drop 1 rest))
      as [(kept & -> & Hsub)|[e ->]]; [|done].
    apply Hlist. rewrite Forall_forall in IH |- *. intros x Hx. apply IH.
    right. eapply subseteq_drop, Hsub, Hx.
  - by apply Hlist.
Qed.

Lemma js_in_dom propertyName (m : mapping) :
  js_in propertyName m = true ↔ js_String propertyName ∈ dom m.
Proof. unfold js_in. by rewrite bool_decide_eq_true, elem_of_dom. Qed.

(** X3: validation looks at the keys of the mapping only: two mappings
    with the same keys give the same validation, whatever their values. *)
Theorem validation_depends_on_keys_only
    (m1 m2 : mapping) (ast_nodes : option (list Node)) :
  dom m1 = dom m2 →
  validateValueAST m1 decl ast_nodes = validateValueAST m2 decl ast_nodes.
Proof.
  intros Hdom.
  assert (∀ propertyName, js_in propertyName m1 = js_in propertyName m2) as Hin.
  { intros pn. apply eq_true_iff_eq. by rewrite !js_in_dom, Hdom. }
  destruct ast_nodes as [l|]; [|done]. rewrite !validateValueAST_forEach.
  induction l as [|x l IH]; [done|]. cbn [forEach]. rewrite IH. f_equal.
  apply (callback_rel m1 m2 eq); try done.
  - intros pn. by rewrite Hin.
  - intros pn c1 H1 H2. by rewrite Hin, H2 in H1.
  - by intros c1 c2 k1 k2 -> ->.
Qed.

Lemma fewer_reports_bind c1 c2 k1 k2 :
  fewer_reports c1 c2 → fewer_reports k1 k2 →
  fewer_reports (c1 ;; k1) (c2 ;; k2).
Proof.
  intros (Hc1 & Hc2 & Hc) (Hk1 & Hk2 & Hk).
  split; [by apply appends_only_bind|]. split; [by apply appends_only_bind|].
  intros s1. rewrite !bind_run by done.
  destruct (c1 []) as [[[]|e] a] eqn:Hrun1; [|done].
  destruct (Hc a eq_refl) as (a' & -> & Ha).
  destruct (k1 []) as [[[]|e] b] eqn:Hrun2; cbn [fst snd]; [|done].
  destruct (Hk b eq_refl) as (b' & -> & Hb). intros [= <-].
  eexists. split; [done|]. by apply sublist_app.
Qed.

Lemma callback_fewer_reports (m1 m2 : mapping) node :
  dom m1 ⊆ dom m2 →
  fewer_reports (validateValueAST_callback m1 decl node)
                (validateValueAST_callback m2 decl node).
Proof.
  intros Hdom. apply callback_rel.
  - intros pn. rewrite !js_in_dom. apply Hdom.
  - intros e. repeat split; try apply appends_only_throw. done.
  - repeat split; try apply appends_only_ret. intros s1 [= <-]. by exists [].
  - intros pn. repeat split; try apply appends_only_report.
    intros s1 [= <-]. by eexists.
  - intros pn c1 _ _ Hc1. repeat split; [done|apply appends_only_ret|].
    intros s1 _. exists []. split; [done|]. apply sublist_nil_l.
  - apply fewer_reports_bind.
Qed.

(** X4: a mapping with more keys gives fewer reports: when validation
    against a mapping returns, validation against a mapping that has all
    its keys returns too, and its reports are among those of the first, in
    the same order. *)
Theorem more_keys_fewer_reports
    (m1 m2 : mapping) (ast_nodes : option (list Node))
    (result result1 : list Report) :
  dom m1 ⊆ dom m2 →
  validateValueAST m1 decl ast_nodes result = (Normal tt, result1) →
  ∃ result2,
    validateValueAST m2 decl ast_nodes result = (Normal tt, result2) ∧
    result2 `sublist_of` result1.
Proof.
  intros Hdom.
  assert (fewer_reports (validateValueAST m1 decl ast_nodes)
                        (validateValueAST m2 decl ast_nodes)) as (H1 & H2 & Hrun).
  { destruct ast_nodes as [l|].
    - rewrite !validateValueAST_forEach. induction l as [|x l IH].
      + repeat split; try apply appends_only_ret. intros s1 [= <-]. by exists [].
      + cbn [forEach]. apply fewer_reports_bind; [|done].
        by apply callback_fewer_reports.
    - repeat split; try apply appends_only_ret. intros s1 [= <-]. by exists []. }
  rewrite (H1 result), (H2 result).
  destruct (validateValueAST m1 decl ast_nodes []) as [c1 s1] eqn:Hrun1.
  cbn [fst snd]. intros [= -> <-].
  destruct (Hrun s1 eq_refl) as (s2 & -> & Hsub).
  exists (result ++ s2). split; [done|]. by apply sublist_app.
Qed.

Lemma js_filter_kept {A} (predicate : A → completion bool) l kept :
  js_filter predicate l = Normal kept →
  Forall (λ x, predicate x = Normal true ∧ x ∈ l) kept.
Proof.
  revert kept. induction l as [|x l IH]; intros kept; simpl.
  - intros [= <-]. constructor.
  - destruct (predicate x) as [b|e] eqn:Hx; [|done].
    destruct (js_filter predicate l) as [kept'|e]; [|done].
    intros [= <-]. specialize (IH kept' eq_refl).
    assert (Forall (λ y, predicate y = Normal true ∧ y ∈ x :: l) kept') as Hkept.
    { eapply Forall_impl; [done|]. intros y [? ?]. split; [done|by right]. }
    destruct b; [|done]. constructor; [|done]. split; [done|by left].
Qed.

Lemma js_filter_throws l :
  Exists (λ f, type f = "func" ∧ name f = Some "var" ∧ default [] (nodes f) = []) l →
  js_filter isVarFunction l = Throw TypeError.
Proof.
  induction l as [|x l IH]; intros Hex; [by apply Exists_nil in Hex|].
  simpl. destruct (isVarFunction x) as [b|e] eqn:Hx.
  - apply Exists_cons in Hex as [Hbad|Hex].
    + assert (isVarFunction x = Throw TypeError) as Hthrow
        by (by apply isVarFunction_throws).
      by rewrite Hthrow in Hx.
    + by rewrite (IH Hex).
  - by apply isVarFunction_throws in Hx as [-> _].
Qed.

(** X5: a reference with an unknown name is satisfied by its fallbacks
    when each of them either is no [var()] function or is a [var()]
    reference with a known name: nothing is reported. *)
Theorem known_fallbacks_satisfy
    (customProperties : mapping)
    (node propertyNode comma : Node) (fallbacks : list Node) (name : string)
    (result : list Report) :
  isVarFunction node = Normal true →
  nodes node = Some (propertyNode :: comma :: fallbacks) →
  value propertyNode = Some name →
  customProperties !! name = None →
  fallbacks ≠ [] →
  Forall (λ fallback,
            isVarFunction fallback = Normal false ∨
            ∃ first others known,
              nodes fallback = Some (first :: others) ∧
              value first = Some known ∧
              is_Some (customProperties !! known)) fallbacks →
  validateValueAST_callback customProperties decl node result = (Normal tt, result).
Proof.
  intros Hvar Hnodes Hname Hnotin Hsome Hall.
  destruct (js_filter_normal_or_throw isVarFunction fallbacks)
    as [(kept & Hkept & _)|[e Hthrow]].
  - rewrite (callback_unknown_fallbacks customProperties decl _ _ _ name kept
               Hvar Hnodes Hname Hnotin); [|done..].
    apply js_filter_kept in Hkept.
    assert (forEach (validateValueAST_callback customProperties decl) kept
            = ret tt) as ->; [|done].
    induction Hkept as [|x kept [Hx Hin] _ IH]; [done|].
    cbn [forEach]. rewrite IH.
    rewrite Forall_forall in Hall.
    destruct (Hall x Hin) as [Hno|(first & others & known & Hxn & Hv & Hk)].
    + by rewrite Hno in Hx.
    + by rewrite (callback_known customProperties decl x first others known).
  - exfalso. clear -Hall Hthrow.
    induction Hall as [|x l Hx _ IH]; [done|]. simpl in Hthrow.
    destruct (isVarFunction x) as [b|e'] eqn:Hvar.
    + destruct (js_filter isVarFunction l); [done|]. by apply IH.
    + destruct Hx as [?|(first & others & known & Hxn & _)]; [done|].
      apply isVarFunction_throws in Hvar as (_ & _ & _ & Hempty).
      by rewrite Hxn in Hempty.
Qed.

(** X6: the fallbacks of a reference with an unknown name are all tested
    before any of them is validated: if one of them is a function named
    [var] without an argument node, the callback throws and reports
    nothing, whatever the other fallbacks are. *)
Theorem var_fallback_without_argument_throws
    (customProperties : mapping)
    (node propertyNode comma : Node) (fallbacks : list Node) (unknown : string)
    (result : list Report) :
  isVarFunction node = Normal true →
  nodes node = Some (propertyNode :: comma :: fallbacks) →
  value propertyNode = Some unknown →
  customProperties !! unknown = None →
  Exists (λ fallback, type fallback = "func" ∧ name fallback = Some "var" ∧
                      default [] (nodes fallback) = []) fallbacks →
  validateValueAST_callback customProperties decl node result
    = (Throw TypeError, result).
Proof.
  intros Hvar Hnodes Hname Hnotin Hbad.
  rewrite validateValueAST_callback_eq, Hvar, Hnodes. cbn zeta.
  unfold js_in. rewrite Hname. cbn [js_String].
  change (drop 1 (comma :: fallbacks)) with fallbacks.
  rewrite bool_decide_false by (rewrite Hnotin; by intros [? ?]).
  rewrite bool_decide_true by (destruct fallbacks; [by apply Exists_nil in Hbad|done]).
  by rewrite (js_filter_throws _ Hbad).
Qed.

End ValidatorInvariants.

(** ** The expressions of the rule *)

Lemma contains_char_spec c s :
  contains_char c s = true ↔ ∃ a b, s = a +:+ String c b.
Proof.
  induction s as [|c' s IH]; cbn [contains_char].
  - split; [done|]. by intros ([|??] & b & ?).
  - rewrite orb_true_iff, bool_decide_eq_true, IH. split.
    + intros [->|(a & b & ->)]; [by exists "", s|by exists (String c' a), b].
    + intros ([|c'' a] & b & Heq); injection Heq as -> ->; [by left|].
      right. by exists a, b.
Qed.

Lemma var_call_here_spec s :
  var_call_here s = true ↔
  ∃ c inside after, s = "var(" +:+ String c (inside +:+ String ")" after).
Proof.
  split.
  - destruct s as [|a1 [|a2 [|a3 [|a4 [|c rest]]]]]; try done;
      destruct a1 as [[] [] [] [] [] [] [] []]; try done;
      destruct a2 as [[] [] [] [] [] [] [] []]; try done;
      destruct a3 as [[] [] [] [] [] [] [] []]; try done;
      destruct a4 as [[] [] [] [] [] [] [] []]; try done.
    cbn [var_call_here]. intros (inside & after & ->)%contains_char_spec.
    by exists c, inside, after.
  - intros (c & inside & after & ->). cbn. apply contains_char_spec. by eexists _, _.
Qed.

Lemma customPropertyReferenceRegExp_search_spec previous s :
  customPropertyReferenceRegExp_search previous s = true ↔
  ∃ before rest, s = before +:+ rest ∧ var_call_here rest = true ∧
                 boundary (last_char previous before) = true.
Proof.
  revert previous. induction s as [|c s IH]; intros previous.
  - cbn. rewrite andb_false_r. split; [done|].
    intros ([|??] & [|??] & ? & ? & ?); done.
  - cbn [customPropertyReferenceRegExp_search].
    rewrite orb_true_iff, andb_true_iff, IH. split.
    + intros [[Hb Hv]|(before & rest & -> & Hv & Hb)].
      * by exists "", (String c s).
      * by exists (String c before), rest.
    + intros ([|c' before] & rest & Heq & Hv & Hb).
      * left. change (String c s = rest) in Heq. by subst rest.
      * right. injection Heq as -> ->. by exists before, rest.
Qed.

(** X7: the guard on a declaration value, [customPropertyReferenceRegExp],
    accepts exactly the texts that hold [var(], then at least one character,
    then a closing parenthesis somewhere after it, where [var(] is at the
    start of the text or follows a character that is neither a word
    character nor a hyphen. *)
Theorem reference_guard_spec (text : string) :
  customPropertyReferenceRegExp_test text = true ↔
  ∃ before c inside after,
    text = before +:+ "var(" +:+ String c (inside +:+ String ")" after) ∧
    boundary (last_char None before) = true.
Proof.
  unfold customPropertyReferenceRegExp_test.
  rewrite customPropertyReferenceRegExp_search_spec. split.
  - intros (before & rest & -> & (c & inside & after & ->)%var_call_here_spec & Hb).
    by exists before, c, inside, after.
  - intros (before & c & inside & after & -> & Hb).
    exists before, ("var(" +:+ String c (inside +:+ String ")" after)).
    split; [done|]. split; [|done]. apply var_call_here_spec. by eexists _, _, _.
Qed.

Lemma range_A_z c :
  bool_decide (65 ≤ code c ≤ 122)%nat =
    in_range "A" "Z" c || in_range "a" "z" c || contains_char c "[\]^_`".
Proof. destruct c as [[] [] [] [] [] [] [] []]; vm_compute; reflexivity. Qed.

(** X8: [customPropertyRegExp] accepts exactly the names made of two
    dashes, then one character that is a letter or one of the six
    characters between [Z] and [a] (the brackets, the backslash, the
    caret, the underscore and the backquote), and then word characters and
    hyphens to the end. *)
Theorem accepted_property_names (prop : string) :
  customPropertyRegExp_test prop = true ↔
  ∃ c rest, prop = "--" +:+ String c rest ∧
            in_range "A" "Z" c || in_range "a" "z" c
              || contains_char c "[\]^_`" = true ∧
            all_chars word_or_hyphen rest = true.
Proof.
  rewrite customPropertyRegExp_test_spec. split.
  - intros (c & rest & -> & Hrange & Hrest). exists c, rest.
    split; [done|]. split; [|done].
    rewrite <- range_A_z. by apply bool_decide_eq_true.
  - intros (c & rest & -> & Hrange & Hrest). exists c, rest.
    split; [done|]. split; [|done].
    rewrite <- range_A_z in Hrange. by apply bool_decide_eq_true in Hrange.
Qed.

Lemma remove_quotes_length s :
  (String.length (remove_quotes s) ≤ String.length s)%nat.
Proof.
  induction s as [|c s IH]; cbn [remove_quotes]; [done|].
  destruct (_ || _); cbn [String.length]; lia.
Qed.

(** X9: the name of an imported file is the parameter of the [@import]
    without any quote, double quote or vertical bar, wherever they are
    in it; the other characters are kept, so a text without these three
    is left as it is. *)
Theorem remove_quotes_spec (params : string) :
  contains_char "'" (remove_quotes params) = false ∧
  contains_char "034" (remove_quotes params) = false ∧
  contains_char "|" (remove_quotes params) = false ∧
  remove_quotes (remove_quotes params) = remove_quotes params ∧
  (contains_char "'" params || contains_char "034" params
   || contains_char "|" params = false ↔ remove_quotes params = params).
Proof.
  induction params as [|c s (IH1 & IH2 & IH3 & IH4 & IH5)]; [done|].
  cbn [remove_quotes contains_char].
  destruct (bool_decide (c = "'"%char)) eqn:H1;
    destruct (bool_decide (c = "|"%char)) eqn:H2;
    destruct (bool_decide (c = "034"%char)) eqn:H3;
    cbn [orb contains_char remove_quotes]; rewrite ?H1, ?H2, ?H3;
    cbn [orb]; rewrite ?orb_true_r.
  8: { repeat split; try done.
       - by rewrite IH4.
       - intros Hnone. f_equal. by apply IH5.
       - intros [= Heq]. by apply IH5. }
  all: repeat split; try done; intros Heq;
    pose proof (remove_quotes_length s) as Hlen;
    rewrite Heq in Hlen; cbn [String.length] in Hlen; lia.
Qed.

(** ** The imports of a stylesheet *)

Lemma Promise_all_map {A B} (g : A → option B) l results :
  Promise_all (map g l) = Some results ↔
  Forall2 (λ x r, g x = Some r) l results.
Proof.
  unfold Promise_all. rewrite mapM_Some.
  change (map g l) with (g <$> l). by rewrite Forall2_fmap_l.
Qed.

Lemma Promise_all_pending {A B} (g : A → option B) l x :
  x ∈ l → g x = None → Promise_all (map g l) = None.
Proof.
  intros Hin Hx. unfold Promise_all. apply mapM_None, Exists_exists.
  exists (g x). split; [|done]. change (map g l) with (g <$> l).
  by apply list_elem_of_fmap_2.
Qed.

Lemma foldl_Object_assign_lookup results (target : mapping) name :
  foldl Object_assign target results !! name =
    match last_defined name (omap id results) with
    | Some v => Some v
    | None => target !! name
    end.
Proof.
  unfold last_defined.
  induction results as [|r results IH] using rev_ind; [done|].
  rewrite omap_app, !foldl_app. cbn [foldl]. destruct r as [m|].
  - rewrite Object_assign_lookup, IH. simpl. by destruct (m !! name).
  - simpl. apply IH.
Qed.

Section ImportProperties.

Context {W : World}.

Lemma css_fails_caught fromRoot from resolver e :
  css_fails from e →
  getCustomPropertiesFromCSSFile_1_with fromRoot from resolver = Some ∅.
Proof.
  unfold getCustomPropertiesFromCSSFile_1_with.
  by intros [->|(css & -> & ->)].
Qed.

Lemma import_fails_nothing fromRoot dir resolver atRule :
  import_fails dir resolver atRule →
  importPromise_with fromRoot dir resolver atRule = Some (Some ∅) ∨
  importPromise_with fromRoot dir resolver atRule = Some None.
Proof.
  unfold import_fails, importPromise_with. cbn zeta.
  destruct (path_isAbsolute _).
  - intros [e Hfail]. left. by rewrite (css_fails_caught _ _ _ _ Hfail).
  - destruct (resolveId _ _ _) as [filePath|e]; [|by right].
    intros [e Hfail]. left. by rewrite (css_fails_caught _ _ _ _ Hfail).
Qed.

(** X10: imports that cannot be resolved, read or parsed are ignored: a
    stylesheet all of whose imports fail (or that has none) resolves, at the
    first call, to its own declarations, and a name is a key of its mapping
    exactly when the stylesheet declares it and [customPropertyRegExp]
    accepts it. *)
Theorem failed_imports_are_ignored
    (fuel : nat) (root : postcss.Root) (resolver : Resolver) :
  Forall (import_fails (sourceDir root) resolver) (walkAtRules "import" root) →
  ∃ customProperties,
    getCustomPropertiesFromRoot (S fuel) root resolver = Some customProperties ∧
    customProperties =
      write_declarations ∅ (walkDecls_matching customPropertyRegExp_test root) ∧
    ∀ name,
      is_Some (customProperties !! name) ↔
      customPropertyRegExp_test name = true ∧
      ∃ v, postcss.mkDecl name v ∈ walkDecls root.
Proof.
  intros Hfail.
  assert (∃ results,
            Promise_all (map (importPromise_with (getCustomPropertiesFromRoot fuel)
                                (sourceDir root) resolver)
                             (walkAtRules "import" root)) = Some results ∧
            ∀ target, foldl Object_assign target results = target)
    as (results & Hall & Hfold).
  { induction Hfail as [|atRule l Hat _ (results & IH & Hfold)].
    - by exists [].
    - apply Promise_all_map in IH.
      destruct (import_fails_nothing (getCustomPropertiesFromRoot fuel)
                  _ _ _ Hat) as [Hr|Hr].
      + exists (Some ∅ :: results). split.
        * apply Promise_all_map. by constructor.
        * intros target. cbn [foldl Object_assign].
          by rewrite (left_id_L ∅ (∪)).
      + exists (None :: results). split; [|done].
        apply Promise_all_map. by constructor. }
  eexists. split; [|split; [done|]].
  - cbn [getCustomPropertiesFromRoot]. by rewrite Hall, Hfold.
  - intros name. rewrite write_declarations_lookup, <- last_declared_matching.
    rewrite lookup_empty. by destruct (last_declared _ _).
Qed.

(** X11: imports are followed without a guard against cycles: a
    stylesheet that imports, by an absolute path, the file it was parsed
    from never resolves, however many nested calls are allowed. *)
Theorem self_import_never_settles
    (fuel : nat) (root : postcss.Root) (resolver : Resolver)
    (atRule : postcss.AtRuleNode) (css : string) :
  atRule ∈ walkAtRules "import" root →
  path_isAbsolute (remove_quotes (postcss.params atRule)) = true →
  fs_readFile (remove_quotes (postcss.params atRule)) = Normal css →
  postcss_parse css (remove_quotes (postcss.params atRule)) = Normal root →
  getCustomPropertiesFromRoot fuel root resolver = None.
Proof.
  intros Hin Habs Hread Hparse. induction fuel as [|fuel IH]; [done|].
  cbn [getCustomPropertiesFromRoot].
  rewrite (Promise_all_pending _ _ atRule Hin); [done|].
  unfold importPromise_with, getCustomPropertiesFromCSSFile_1_with. cbn zeta.
  by rewrite Habs, Hread, Hparse, IH.
Qed.

(** X12: the mappings of the imports of a stylesheet are merged in the
    order of the [@import] rules, so a name that several imports define
    has the value of the last of them. *)
Theorem later_import_wins
    (fuel : nat) (root : postcss.Root) (resolver : Resolver)
    (results : list (option mapping)) :
  Forall2 (λ atRule r,
             importPromise_with (getCustomPropertiesFromRoot fuel)
               (sourceDir root) resolver atRule = Some r)
          (walkAtRules "import" root) results →
  importedCustomProperties fuel root resolver
    = Some (foldl Object_assign ∅ results) ∧
  ∀ name,
    foldl Object_assign ∅ results !! name = last_defined name (omap id results).
Proof.
  intros Hall%Promise_all_map. split.
  - unfold importedCustomProperties. by rewrite Hall.
  - intros name. rewrite foldl_Object_assign_lookup, lookup_empty.
    by destruct (last_defined _ _).
Qed.

(** X13: on a file that is read and parsed, the loader of imported files
    and the loader of configured stylesheets give the same mapping, the
    one of the parsed stylesheet. *)
Theorem css_loaders_agree
    (fuel : nat) (from css : string) (root : postcss.Root)
    (resolver : Resolver) :
  fs_readFile from = Normal css →
  postcss_parse css from = Normal root →
  getCustomPropertiesFromCSSFile_1 fuel from resolver
    = getCustomPropertiesFromRoot fuel root resolver ∧
  getCustomPropertiesFromCSSFile fuel (Some from) resolver
    = Normal <$> getCustomPropertiesFromRoot fuel root resolver.
Proof.
  intros Hread Hparse.
  unfold getCustomPropertiesFromCSSFile_1, getCustomPropertiesFromCSSFile_1_with,
    getCustomPropertiesFromCSSFile, readFile. cbn [js_String].
  by rewrite Hread, Hparse.
Qed.



End ImportProperties.

(** ** The configured sources *)

Section SourceProperties.

Context {W : World}.

Lemma assign_awaited_nothing customProperties :
  assign_awaited customProperties (Some (Normal ∅)) = customProperties.
Proof.
  destruct customProperties as [[target|e]|]; [|done..].
  cbn [assign_awaited Object_assign]. by rewrite (left_id_L ∅ (∪)).
Qed.

Lemma loaded_mapping_object fuel resolver object :
  ¬ file_type (o_type object) →
  loaded_mapping fuel resolver object
    = Some (Normal (getCustomPropertiesFromObject object)).
Proof.
  intros Htype. unfold loaded_mapping, file_type in *.
  repeat case_bool_decide; naive_solver.
Qed.

Lemma source_of_opts_inline object :
  is_Some (o_customProperties object) ∨ is_Some (o_custom_properties object) →
  source_of_opts object = object.
Proof.
  intros Hinline. unfold source_of_opts.
  destruct Hinline; repeat case_bool_decide; done.
Qed.

(** X15: a source that is an object with a [customProperties] or a
    ['custom-properties'] field, and whose [type] is none of [css], [js]
    and [json], is read as it is, without any file: its two fields, merged,
    are written over the mapping of the sources before it. *)
Theorem inline_source_is_merged
    (fuel : nat) (resolver : Resolver) (before : list Source)
    (mappings : list mapping) (object : JsObject) :
  is_Some (o_customProperties object) ∨ is_Some (o_custom_properties object) →
  ¬ file_type (o_type object) →
  Forall2 (source_defines fuel resolver) before mappings →
  getCustomPropertiesFromSources fuel (before ++ [SourceObject object]) resolver
  = Some (Normal (getCustomPropertiesFromObject object
                  ∪ foldl (λ acc m, m ∪ acc) ∅ mappings)).
Proof.
  intros Hinline Htype Hbefore. unfold getCustomPropertiesFromSources.
  rewrite map_app, foldl_app,
    (getCustomPropertiesFromSources_fold _ _ _ _ ∅ Hbefore).
  cbn [map foldl awaited_source].
  by rewrite (source_of_opts_inline _ Hinline), reducer_eq,
    (loaded_mapping_object _ _ _ Htype).
Qed.

(** X16: the fields of such an object are not read when its [type] is
    [css]: the stylesheet at its [from], taken as it is written, is loaded
    instead. *)
Theorem inline_source_of_type_css_is_a_file
    (fuel : nat) (resolver : Resolver) (before : list Source)
    (mappings : list mapping) (object : JsObject) :
  is_Some (o_customProperties object) ∨ is_Some (o_custom_properties object) →
  o_type object = Some "css" →
  Forall2 (source_defines fuel resolver) before mappings →
  getCustomPropertiesFromSources fuel (before ++ [SourceObject object]) resolver
  = assign_awaited (Some (Normal (foldl (λ acc m, m ∪ acc) ∅ mappings)))
      (getCustomPropertiesFromCSSFile fuel (o_from object) resolver).
Proof.
  intros Hinline Htype Hbefore. unfold getCustomPropertiesFromSources.
  rewrite map_app, foldl_app,
    (getCustomPropertiesFromSources_fold _ _ _ _ ∅ Hbefore).
  cbn [map foldl awaited_source].
  rewrite (source_of_opts_inline _ Hinline), reducer_eq.
  unfold loaded_mapping. by rewrite bool_decide_true.
Qed.

(** X17: a source given as a path whose extension, in lower case, is none
    of [css], [js] and [json] is ignored: no file is read, nothing fails,
    and the aggregation is the one of the other sources. *)
Theorem unknown_type_is_ignored
    (fuel : nat) (resolver : Resolver) (before after : list Source)
    (path : string) :
  ¬ file_type (Some (type_of_path path)) →
  getCustomPropertiesFromSources fuel (before ++ SourceString path :: after) resolver
  = getCustomPropertiesFromSources fuel (before ++ after) resolver.
Proof.
  intros Htype. unfold getCustomPropertiesFromSources.
  rewrite !map_app, !foldl_app. cbn [map foldl awaited_source]. f_equal.
  unfold source_of_opts. cbn [o_customProperties o_custom_properties o_from o_type].
  rewrite !bool_decide_false by (by intros [? ?]). cbn [orb].
  rewrite reducer_eq, loaded_mapping_object by done.
  apply assign_awaited_nothing.
Qed.

Lemma foldl_reducer_keeps_rejection fuel resolver sources e :
  Forall (λ source, ∃ object, awaited_source source = Normal object) sources →
  foldl (reducer fuel resolver) (Some (Throw e)) (map awaited_source sources)
  = Some (Throw e).
Proof.
  induction 1 as [|source sources [object Hsource] _ IH]; [done|].
  cbn [map foldl]. by rewrite Hsource, reducer_eq.
Qed.

(** X18: a source whose promise (or whose function's result) is rejected
    rejects the aggregation with its reason, whatever the sources before it
    give, even when they never settle, as long as no source after it is
    rejected in the same way. *)
Theorem rejected_source_rejects_all
    (fuel : nat) (resolver : Resolver) (before after : list Source)
    (source : Source) (e : exn) :
  awaited_source source = Throw e →
  Forall (λ later, ∃ object, awaited_source later = Normal object) after →
  getCustomPropertiesFromSources fuel (before ++ source :: after) resolver
  = Some (Throw e).
Proof.
  intros Hsource Hafter. unfold getCustomPropertiesFromSources.
  rewrite map_app, foldl_app. cbn [map foldl]. rewrite Hsource.
  cbn [reducer]. by apply foldl_reducer_keeps_rejection.
Qed.

End SourceProperties.

(** ** The rule and the stylesheets *)

Section RuleProperties.

Context {W : World}.

(** X19: a rule whose primary option is not [true] loads no source, and
    its callback does nothing but call [validateOptions] on the result:
    whatever the stylesheet, the rule makes no report, throws nothing and
    stays as it is; an invalid-option warning is the host's to record, in
    that call, with [possible()] true for [false] and [null] only. *)
Theorem rule_not_enabled_does_nothing
    (HostResult : Type)
    (host_validateOptions : string → Method → bool → HostResult → HostResult)
    (fuel fuel' : nat) (method : Method) (opts : Options)
    (root : postcss.Root) (host : HostResult) (result : list Report) :
  method ≠ MTrue →
  customPropertiesPromise (createRule fuel method opts) = Some (Normal ∅) ∧
  rule_callback HostResult host_validateOptions fuel'
    (createRule fuel method opts) root host result
  = (host_validateOptions ruleName method (isMethodDisabled method) host,
     Some (Normal tt, result, createRule fuel method opts)).
Proof.
  intros Hmethod.
  assert (isMethodEnabled method = false) as Henabled
    by (by apply bool_decide_eq_false).
  split.
  - unfold createRule. cbn. by rewrite Henabled.
  - unfold rule_callback. cbn [rule_method createRule].
    rewrite Henabled. cbn [orb]. f_equal. by apply lint_disabled.
Qed.

(** X20: when the aggregation of the configured sources is rejected, the
    callback of the enabled rule throws the reason on every stylesheet,
    before anything is validated: no report is made. *)
Theorem rejected_sources_abort_lint
    (fuel fuel' : nat) (opts : Options) (root : postcss.Root)
    (result : list Report) (e : exn) :
  getCustomPropertiesFromSources fuel (importFrom opts) (resolver opts)
    = Some (Throw e) →
  lint fuel' (createRule fuel MTrue opts) root result
    = Some (Throw e, result, createRule fuel MTrue opts).
Proof.
  intros Hsources. unfold lint, customProperties_for, createRule. cbn.
  by rewrite Hsources.
Qed.

Lemma customProperties_for_declared fuel rule root
    (customProperties : mapping) (name v : string) :
  customProperties_for fuel rule root = Some (Normal customProperties) →
  postcss.mkDecl name v ∈ walkDecls root →
  customPropertyRegExp_test name = true →
  is_Some (customProperties !! name).
Proof.
  unfold customProperties_for. intros Hfor Hin Htest.
  destruct (customPropertiesPromise rule) as [[shared|]|]; [|done..].
  destruct fuel as [|fuel]; [done|].
  rewrite getCustomPropertiesFromRoot_S in Hfor.
  destruct (importedCustomProperties _ _ _) as [imported|]; [|done].
  assert (customProperties =
          Object_assign shared
            (Some (write_declarations imported
                     (walkDecls_matching customPropertyRegExp_test root))))
    as -> by (by injection Hfor).
  rewrite Object_assign_lookup, write_declarations_lookup.
  assert (is_Some (last_declared name
                     (walkDecls_matching customPropertyRegExp_test root)))
    as [v' ->]; [|by eexists].
  apply last_declared_matching. split; [done|by exists v].
Qed.

(** X21: the names a stylesheet declares are known when it is validated:
    every declaration of the stylesheet whose property
    [customPropertyRegExp] accepts is a key of the mapping the stylesheet
    is validated against. *)
Theorem own_declarations_are_known
    (fuel : nat) (rule : Rule) (root : postcss.Root)
    (customProperties : mapping) (name v : string) :
  customProperties_for fuel rule root = Some (Normal customProperties) →
  postcss.mkDecl name v ∈ walkDecls root →
  customPropertyRegExp_test name = true →
  is_Some (customProperties !! name).
Proof. apply customProperties_for_declared. Qed.

(** X22: a declaration whose value does not pass the guard is not parsed:
    a stylesheet none of whose values passes it is validated without any
    report, whatever the value parser would do with them. *)
Theorem declarations_without_reference_are_skipped
    (root : postcss.Root) (customProperties : mapping) (result : list Report) :
  Forall (λ decl, hasCustomPropertyReference decl = false) (walkDecls root) →
  validateResult root customProperties result = (Normal tt, result).
Proof.
  unfold validateResult. generalize (walkDecls root). intros decls Hnone.
  induction Hnone as [|d decls Hd _ IH]; [done|].
  cbn [forEach]. by rewrite Hd.
Qed.

(** X23: a value that passes the guard and that the value parser rejects
    stops the validation of the stylesheet: what the parser throws is
    thrown, the reports of the declarations before are kept, and the
    declarations after are not validated. *)
Theorem unparsed_value_aborts_validation
    (root : postcss.Root) (customProperties : mapping)
    (before after : list postcss.Declaration) (decl : postcss.Declaration)
    (e : exn) (result result1 : list Report) :
  walkDecls root = before ++ decl :: after →
  hasCustomPropertyReference decl = true →
  values_parse (postcss.value decl) = Throw e →
  forEach (λ decl, if hasCustomPropertyReference decl
                   then validateDecl customProperties decl
                   else ret tt) before result = (Normal tt, result1) →
  validateResult root customProperties result = (Throw e, result1).
Proof.
  intros Hdecls Href Hparse Hbefore. unfold validateResult.
  rewrite Hdecls, (forEach_app _ _ _ _ _ Hbefore). cbn [forEach].
  apply bind_throw. rewrite Href. unfold validateDecl. by rewrite Hparse.
Qed.





End RuleProperties.

(** ** The further properties on the examples *)

Section FurtherExamples.

Import Example.

Lemma validation_depends_on_keys_only_witness :
  validateValueAST palette color_decl (Some [calc_d; known_with_fallback])
  = validateValueAST {[ "--c" := "blue" ]} color_decl
      (Some [calc_d; known_with_fallback]).
Proof.
  apply (validation_depends_on_keys_only color_decl palette {[ "--c" := "blue" ]}).
  vm_compute. reflexivity.
Defined.

Lemma more_keys_fewer_reports_witness :
  ∃ result2,
    validateValueAST palette color_decl
      (Some [var_d; func_node "var" [word_node "--c"]]) []
      = (Normal tt, result2) ∧
    result2 `sublist_of` [unknown_report color_decl (Some "--d");
                          unknown_report color_decl (Some "--c")].
Proof.
  apply (more_keys_fewer_reports color_decl ∅ palette
           (Some [var_d; func_node "var" [word_node "--c"]]) []).
  - rewrite dom_empty_L. apply empty_subseteq.
  - reflexivity.
Defined.

Lemma known_fallbacks_satisfy_witness :
  validateValueAST_callback palette color_decl
    (func_node "var" [word_node "--unknown"; punctuation_node ",";
                      func_node "var" [word_node "--c"]; word_node "red"]) []
  = (Normal tt, []).
Proof.
  apply (known_fallbacks_satisfy color_decl palette _ (word_node "--unknown")
           (punctuation_node ",")
           [func_node "var" [word_node "--c"]; word_node "red"] "--unknown" []);
    try reflexivity.
  - discriminate.
  - constructor; [|constructor; [|constructor]].
    + right. exists (word_node "--c"), [], "--c".
      split; [reflexivity|]. split; [reflexivity|]. exists "red". reflexivity.
    + left. reflexivity.
Defined.

Lemma var_fallback_without_argument_throws_witness :
  validateValueAST_callback palette color_decl
    (func_node "var" [word_node "--unknown"; punctuation_node ",";
                      func_node "var" [word_node "--other"];
                      func_node "var" []]) []
  = (Throw TypeError, []).
Proof.
  apply (var_fallback_without_argument_throws color_decl palette _
           (word_node "--unknown") (punctuation_node ",")
           [func_node "var" [word_node "--other"]; func_node "var" []]
           "--unknown" []); try reflexivity.
  right. left. repeat split; reflexivity.
Defined.

Lemma inline_source_is_merged_witness :
  getCustomPropertiesFromSources 1
    ([] ++ [SourceObject {| o_type := None; o_from := Some "nowhere";
                            o_customProperties := Some {[ "--i" := "1" ]};
                            o_custom_properties := Some {[ "--i" := "2" ]} |}])
    no_resolver
  = Some (Normal (getCustomPropertiesFromObject
                    {| o_type := None; o_from := Some "nowhere";
                       o_customProperties := Some {[ "--i" := "1" ]};
                       o_custom_properties := Some {[ "--i" := "2" ]} |}
                  ∪ foldl (λ acc m, m ∪ acc) ∅ [])).
Proof.
  apply (inline_source_is_merged 1 no_resolver [] []).
  - left. eexists. reflexivity.
  - intros [H|[H|H]]; discriminate H.
  - constructor.
Defined.

Lemma inline_source_of_type_css_is_a_file_witness :
  getCustomPropertiesFromSources 2
    ([] ++ [SourceObject {| o_type := Some "css"; o_from := Some "/a.css";
                            o_customProperties := Some {[ "--i" := "1" ]};
                            o_custom_properties := None |}])
    no_resolver
  = assign_awaited (Some (Normal (foldl (λ acc m, m ∪ acc) ∅ [])))
      (getCustomPropertiesFromCSSFile 2 (Some "/a.css") no_resolver).
Proof.
  apply (inline_source_of_type_css_is_a_file 2 no_resolver [] []).
  - left. eexists. reflexivity.
  - reflexivity.
  - constructor.
Defined.

Lemma unknown_type_is_ignored_witness :
  getCustomPropertiesFromSources 2
    ([SourceString "/a.css"] ++ SourceString "notes.TXT" :: []) no_resolver
  = getCustomPropertiesFromSources 2 ([SourceString "/a.css"] ++ []) no_resolver.
Proof.
  apply (unknown_type_is_ignored 2 no_resolver [SourceString "/a.css"] []
           "notes.TXT").
  intros [H|[H|H]]; vm_compute in H; discriminate H.
Defined.

Lemma rejected_source_rejects_all_witness :
  getCustomPropertiesFromSources 2
    ([SourceString "/missing.css"]
     ++ SourcePromise (Throw (Rejected "no tokens")) :: [SourceString "/a.css"])
    no_resolver
  = Some (Throw (Rejected "no tokens")).
Proof.
  apply (rejected_source_rejects_all 2 no_resolver [SourceString "/missing.css"]
           [SourceString "/a.css"] (SourcePromise (Throw (Rejected "no tokens")))).
  - reflexivity.
  - constructor; [|constructor]. eexists. reflexivity.
Defined.

Lemma rule_not_enabled_does_nothing_witness :
  customPropertiesPromise (createRule 2 (MOther "2") two_sources)
    = Some (Normal ∅) ∧
  rule_callback (list string)
    (λ _ _ possible warnings,
       if possible then warnings else warnings ++ ["invalidOption"])
    1 (createRule 2 (MOther "2") two_sources)
    (stylesheet "/second.css" second_css) [] []
  = (["invalidOption"],
     Some (Normal tt, [], createRule 2 (MOther "2") two_sources)).
Proof.
  apply (rule_not_enabled_does_nothing (list string)
           (λ _ _ possible warnings,
              if possible then warnings else warnings ++ ["invalidOption"])
           2 1 (MOther "2") two_sources).
  discriminate.
Defined.

Lemma rejected_sources_abort_lint_witness :
  lint 1 (createRule 1 MTrue {| importFrom := [SourceString "/missing.css"];
                                resolver := no_resolver |})
         (stylesheet "/first.css" first_css) []
  = Some (Throw (IOError "/missing.css"), [],
          createRule 1 MTrue {| importFrom := [SourceString "/missing.css"];
                                resolver := no_resolver |}).
Proof.
  apply (rejected_sources_abort_lint 1 1
           {| importFrom := [SourceString "/missing.css"];
              resolver := no_resolver |}).
  vm_compute. reflexivity.
Defined.

Lemma own_declarations_are_known_witness :
  is_Some (({[ "--a" := "1" ]} : mapping) !! "--a").
Proof.
  apply (own_declarations_are_known 1 plain_rule
           (stylesheet "/first.css" first_css) {[ "--a" := "1" ]} "--a" "1").
  - vm_compute. reflexivity.
  - vm_compute. left.
  - reflexivity.
Defined.

Lemma declarations_without_reference_are_skipped_witness :
  validateResult (stylesheet "/a.css" a_css) palette [] = (Normal tt, []).
Proof.
  apply (declarations_without_reference_are_skipped
           (stylesheet "/a.css" a_css) palette []).
  repeat constructor.
Defined.

Lemma unparsed_value_aborts_validation_witness :
  validateResult
    (postcss.mkRoot None [postcss.Decl "color" "var(--a)";
                          postcss.Decl "width" "var(--w";
                          postcss.Decl "height" "calc(var(--h))";
                          postcss.Decl "top" "var(--d)"])
    palette []
  = (Throw SyntaxError,
     [unknown_report (postcss.mkDecl "color" "var(--a)") (Some "--a")]).
Proof.
  apply (unparsed_value_aborts_validation _ palette
           [postcss.mkDecl "color" "var(--a)"; postcss.mkDecl "width" "var(--w"]
           [postcss.mkDecl "top" "var(--d)"]
           (postcss.mkDecl "height" "calc(var(--h))")); reflexivity.
Defined.


End FurtherExamples.

Section ImportExamples.

Import Imports.

Lemma failed_imports_are_ignored_witness :
  ∃ customProperties,
    getCustomPropertiesFromRoot 1 (stylesheet "/broken.css" broken_css)
      Example.no_resolver = Some customProperties ∧
    customProperties =
      write_declarations ∅
        (walkDecls_matching customPropertyRegExp_test
           (stylesheet "/broken.css" broken_css)) ∧
    ∀ name,
      is_Some (customProperties !! name) ↔
      customPropertyRegExp_test name = true ∧
      ∃ v, postcss.mkDecl name v ∈ walkDecls (stylesheet "/broken.css" broken_css).
Proof.
  apply (failed_imports_are_ignored 0 (stylesheet "/broken.css" broken_css)
           Example.no_resolver).
  constructor; [|constructor; [|constructor]].
  - exact I.
  - exists (IOError "/missing.css"). left. reflexivity.
Defined.

Lemma self_import_never_settles_witness :
  getCustomPropertiesFromRoot 5 (stylesheet "/loop.css" loop_css)
    Example.no_resolver = None.
Proof.
  apply (self_import_never_settles 5 (stylesheet "/loop.css" loop_css)
           Example.no_resolver (postcss.mkAtRule "import" "'/loop.css'")
           loop_css).
  - vm_compute. left.
  - reflexivity.
  - reflexivity.
  - reflexivity.
Defined.

Lemma later_import_wins_witness :
  importedCustomProperties 1 (stylesheet "/two.css" two_css) Example.no_resolver
    = Some (foldl Object_assign ∅
              [Some {[ "--k" := "p" ]}; Some {[ "--k" := "q"; "--j" := "2" ]}]) ∧
  foldl Object_assign ∅
    [Some ({[ "--k" := "p" ]} : mapping); Some {[ "--k" := "q"; "--j" := "2" ]}]
    !! "--k" = Some "q".
Proof.
  destruct (later_import_wins 1 (stylesheet "/two.css" two_css)
              Example.no_resolver
              [Some {[ "--k" := "p" ]}; Some {[ "--k" := "q"; "--j" := "2" ]}])
    as [Himported Hlookup].
  - constructor; [|constructor; [|constructor]]; vm_compute; reflexivity.
  - split; [exact Himported|]. rewrite Hlookup. reflexivity.
Defined.

Lemma css_loaders_agree_witness :
  getCustomPropertiesFromCSSFile_1 1 "/q.css" Example.no_resolver
    = getCustomPropertiesFromRoot 1 (stylesheet "/q.css" q_css)
        Example.no_resolver ∧
  getCustomPropertiesFromCSSFile 1 (Some "/q.css") Example.no_resolver
    = Normal <$> getCustomPropertiesFromRoot 1 (stylesheet "/q.css" q_css)
                   Example.no_resolver.
Proof.
  apply (css_loaders_agree 1 "/q.css" q_css); reflexivity.
Defined.


End ImportExamples.
